(** * featuretracker.py: track registry, re-detection cadence and the
      forward-backward consistency filter

    A shallow embedding of [Point], [Track] and the tracking methods of
    [featureTrackerPlayer], followed by the properties of the track
    lifecycle.  The OpenCV calls are an abstract record of capabilities
    over an abstract image type; pixel coordinates range over any numeric
    type that offers the operators the code applies to them. *)

From Stdlib Require Import ZArith QArith Qabs Qround Lia List Bool.
From stdpp Require Import base list.
Import ListNotations.

Set Implicit Arguments.
Unset Strict Implicit.

(** ** Numbers

    [Point] and the filter are duck-typed: they use [+], [-], unary [-],
    [*], [abs], [max] and [<] on whatever the coordinates are (Python
    numbers, [np.float32]).  Only irreflexivity of [<] is assumed. *)

Class Number (R : Type) := {
  num_one : R;
  num_add : R -> R -> R;
  num_sub : R -> R -> R;
  num_opp : R -> R;
  num_mul : R -> R -> R;
  num_abs : R -> R;
  num_max : R -> R -> R;
  num_ltb : R -> R -> bool;
  num_ltb_irrefl : forall a, num_ltb a a = false
}.

(** Rational coordinates, used for the concrete runs. *)
Definition Qltb (a b : Q) : bool := negb (Qle_bool b a).

#[export] Instance Q_Number : Number Q := {|
  num_one := 1%Q;
  num_add := Qplus;
  num_sub := Qminus;
  num_opp := Qopp;
  num_mul := Qmult;
  num_abs := Qabs;
  num_max := fun a b => if Qle_bool a b then b else a;
  num_ltb := Qltb;
  num_ltb_irrefl := fun a =>
    f_equal negb (proj2 (Qle_bool_iff a a) (Qle_refl a))
|}.

(** ** Exceptions and results *)

Inductive Exn : Type :=
| TypeError
| IndexError
| ValueError
| AttributeError
| CvError.

Inductive Result (A : Type) : Type :=
| Ok (a : A)
| Raise (e : Exn).
Arguments Ok {A} a.
Arguments Raise {A} e.

Definition Color : Type := (Z * Z * Z)%type.

(** [maxTrackLength] is [np.inf] unless configured. *)
Inductive MaxLen : Type :=
| Inf
| Fin (n : Z).

(** [n > maxLen] for a point count [n]. *)
Definition exceeds (n : nat) (m : MaxLen) : bool :=
  match m with
  | Inf => false
  | Fin k => (k <? Z.of_nat n)%Z
  end.

Section Tracker.

Context {R : Type} `{Number R}.

(** ** class Point

    [__div__] and [norm2] need a division and a square root and are used
    by none of the tracking methods; they are left out, as are [__repr__]
    and [__eq__]. *)

Record Point : Type := mkPoint { x : R; y : R }.

Definition Point__add__ (self p : Point) : Point :=
  mkPoint (num_add (x self) (x p)) (num_add (y self) (y p)).

Definition Point__sub__ (self p : Point) : Point :=
  mkPoint (num_sub (x self) (x p)) (num_sub (y self) (y p)).

Definition Point__mul__ (self : Point) (s : R) : Point :=
  mkPoint (num_mul (x self) s) (num_mul (y self) s).

Definition Point_asTuple (self : Point) : R * R := (x self, y self).

Definition Point_norm2Squared (self : Point) : R :=
  num_add (num_mul (x self) (x self)) (num_mul (y self) (y self)).

(** Values that reach the methods of [Point] as arguments. *)
Inductive PyVal : Type :=
| VPoint (p : Point)
| VNum (s : R).

(** [def __neg__(self, p)]: the method is declared with two positional
    parameters; the second one is not used by the body. *)
Definition Point__neg__ (self : Point) (p : PyVal) : Point :=
  mkPoint (num_opp (x self)) (num_opp (y self)).

(** The interpreter's dispatch of an operator to a method of [Point]: the
    operands are bound to the method's positional parameters, a count that
    differs from the declared one raises [TypeError], and reading [.x] of
    a number raises [AttributeError]. *)
Definition call_Point__add__ (args : list PyVal) : Result Point :=
  match args with
  | [VPoint self; VPoint p] => Ok (Point__add__ self p)
  | [_; _] => Raise AttributeError
  | _ => Raise TypeError
  end.

Definition call_Point__sub__ (args : list PyVal) : Result Point :=
  match args with
  | [VPoint self; VPoint p] => Ok (Point__sub__ self p)
  | [_; _] => Raise AttributeError
  | _ => Raise TypeError
  end.

Definition call_Point__neg__ (args : list PyVal) : Result Point :=
  match args with
  | [VPoint self; p] => Ok (Point__neg__ self p)
  | _ => Raise TypeError
  end.

(** [p + q], [p - q] and [-p] as the interpreter evaluates them:
    [type(p).__add__(p, q)], [type(p).__sub__(p, q)], [type(p).__neg__(p)]. *)
Definition op_add (p q : Point) : Result Point :=
  call_Point__add__ [VPoint p; VPoint q].

Definition op_sub (p q : Point) : Result Point :=
  call_Point__sub__ [VPoint p; VPoint q].

Definition op_neg (p : Point) : Result Point :=
  call_Point__neg__ [VPoint p].

(** ** class Track *)

Record Track : Type := mkTrack {
  trackId : nat;
  color : Color;
  smoothingWindow : Z;
  points : list Point;
  velocity : list Point;
  lastVel : option Point;
  lastPos : option Point;
  smoothedVel : option Point
}.

(** [Track(trackId)]: the colour is the outcome of [cvgui.randomColor()]. *)
Definition Track__init__ (tid : nat) (c : Color) : Track :=
  mkTrack tid c 5 [] [] None None None.

Definition Track_numPoints (self : Track) : nat := length (points self).

Definition Track_addPoint (self : Track) (px py : R) : Track :=
  let p := mkPoint px py in
  match last (points self) with
  | Some q =>
      let v := Point__sub__ p q in
      mkTrack (trackId self) (color self) (smoothingWindow self)
              (points self ++ [p]) (velocity self ++ [v])
              (Some v) (Some p) (smoothedVel self)
  | None =>
      mkTrack (trackId self) (color self) (smoothingWindow self)
              (points self ++ [p]) (velocity self)
              (lastVel self) (Some p) (smoothedVel self)
  end.

(** [self.points.pop(0)]: [IndexError] on an empty list. *)
Definition Track_removeOldest (self : Track) : Result Track :=
  match points self with
  | [] => Raise IndexError
  | _ :: rest =>
      Ok (mkTrack (trackId self) (color self) (smoothingWindow self)
                  rest (velocity self)
                  (lastVel self) (lastPos self) (smoothedVel self))
  end.

(** ** class featureTrackerPlayer *)

(** The OpenCV calls the tracker makes.  An image argument is [None] when
    the attribute passed holds [None]; a call that fails raises.
    [calcOpticalFlowPyrLK prev next pts] returns [(nextPts, status, err)],
    [goodFeaturesToTrack gray mask] returns [None] or the corners. *)
Variable Image : Type.

Record CV2 : Type := {
  cvtColor : Image -> Result Image;
  calcOpticalFlowPyrLK :
    option Image -> option Image -> list (R * R) ->
    Result (list (R * R) * list bool * list R);
  goodFeaturesToTrack :
    option Image -> option Image -> Result (option (list (R * R)))
}.

Variable cv2 : CV2.

(** The attributes the tracking methods read or write.  [img], [fgmask],
    [posFrames] and the outcomes [rng] of this tick's [randomColor()]
    draws (the i-th track constructed while the registry has i entries)
    are set before [trackFeatures] runs.  [lastGrayImage = None] stands
    for the attribute not being set yet. *)
Record Player : Type := mkPlayer {
  posFrames : Z;
  img : Image;
  fgmask : option Image;
  rng : nat -> Color;
  lastFrameDrawn : Z;
  grayImg : option Image;
  lastGrayImage : option Image;
  maxTrackLength : MaxLen;
  detectionInterval : Z;
  lastDetectionFrame : Z;
  tracks : list Track
}.

Definition set_tracks (ts : list Track) (s : Player) : Player :=
  mkPlayer (posFrames s) (img s) (fgmask s) (rng s) (lastFrameDrawn s)
           (grayImg s) (lastGrayImage s) (maxTrackLength s)
           (detectionInterval s) (lastDetectionFrame s) ts.

Definition set_lastDetectionFrame (k : Z) (s : Player) : Player :=
  mkPlayer (posFrames s) (img s) (fgmask s) (rng s) (lastFrameDrawn s)
           (grayImg s) (lastGrayImage s) (maxTrackLength s)
           (detectionInterval s) k (tracks s).

Definition set_lastFrameDrawn (k : Z) (s : Player) : Player :=
  mkPlayer (posFrames s) (img s) (fgmask s) (rng s) k
           (grayImg s) (lastGrayImage s) (maxTrackLength s)
           (detectionInterval s) (lastDetectionFrame s) (tracks s).

Definition set_grayImg (g : option Image) (s : Player) : Player :=
  mkPlayer (posFrames s) (img s) (fgmask s) (rng s) (lastFrameDrawn s)
           g (lastGrayImage s) (maxTrackLength s)
           (detectionInterval s) (lastDetectionFrame s) (tracks s).

Definition set_maxTrackLength (m : MaxLen) (s : Player) : Player :=
  mkPlayer (posFrames s) (img s) (fgmask s) (rng s) (lastFrameDrawn s)
           (grayImg s) (lastGrayImage s) m
           (detectionInterval s) (lastDetectionFrame s) (tracks s).

Definition set_lastGrayImage (g : option Image) (s : Player) : Player :=
  mkPlayer (posFrames s) (img s) (fgmask s) (rng s) (lastFrameDrawn s)
           (grayImg s) g (maxTrackLength s)
           (detectionInterval s) (lastDetectionFrame s) (tracks s).

(** What the frame source sets before a tick. *)
Definition set_frame (k : Z) (i : Image) (m : option Image)
    (r : nat -> Color) (s : Player) : Player :=
  mkPlayer k i m r (lastFrameDrawn s)
           (grayImg s) (lastGrayImage s) (maxTrackLength s)
           (detectionInterval s) (lastDetectionFrame s) (tracks s).

(** [featureTrackerPlayer(videoFilename, detectionInterval=5)], as far as
    the tracker's attributes go. *)
Definition Player__init__ (interval : Z) (i : Image) : Player :=
  mkPlayer 0 i None (fun _ => (0, 0, 0)%Z) (-1) None None Inf interval (-1) [].

(** *** Methods as state transformers that may raise *)

Definition M (A : Type) : Type := Player -> Result A * Player.

Definition ret {A} (a : A) : M A := fun s => (Ok a, s).

Definition bind {A B} (m : M A) (k : A -> M B) : M B :=
  fun s =>
    match m s with
    | (Ok a, s') => k a s'
    | (Raise e, s') => (Raise e, s')
    end.

Definition get : M Player := fun s => (Ok s, s).

Definition modify (f : Player -> Player) : M unit := fun s => (Ok tt, f s).

Definition lift {A} (r : Result A) : M A := fun s => (r, s).

Notation "v <- m ;; k" := (bind m (fun v => k))
  (at level 20, m at level 99, k at level 200, only parsing).
Notation "'run' m ;; k" := (bind m (fun _ => k))
  (at level 20, m at level 99, k at level 200, only parsing).

Definition getGrayImage : M unit :=
  s <- get ;;
  run match grayImg s with
      | Some g => modify (set_lastGrayImage (Some g))
      | None => ret tt
      end ;;
  g <- lift (cvtColor cv2 (img s)) ;;
  modify (set_grayImg (Some g)).

Definition resetTracks : M unit := modify (set_tracks []).

(** The body of the [for x, y in corners] loop of [getNewTracks]. *)
Definition spawn (c : R * R) : M unit :=
  s <- get ;;
  let tid := length (tracks s) in
  let t := Track__init__ tid (rng s tid) in
  let t := Track_addPoint t (fst c) (snd c) in
  modify (set_tracks (tracks s ++ [t])).

Fixpoint spawnAll (corners : list (R * R)) : M unit :=
  match corners with
  | [] => ret tt
  | c :: rest => run spawn c ;; spawnAll rest
  end.

Definition getNewTracks : M unit :=
  s <- get ;;
  corners <- lift (goodFeaturesToTrack cv2 (grayImg s) (fgmask s)) ;;
  run match corners with
      | Some cs => spawnAll cs
      | None => ret tt
      end ;;
  modify (fun s' => set_lastDetectionFrame (posFrames s') s').

(** [abs(p0-p0r).reshape(-1, 2).max(-1)] on arrays of shape (n,1,2) and
    (m,1,2): numpy broadcasts when the lengths agree or one of them is 1,
    and raises otherwise. *)
Definition absdiff (a b : R * R) : R :=
  num_max (num_abs (num_sub (fst a) (fst b)))
          (num_abs (num_sub (snd a) (snd b))).

Definition roundTrip (p0 p0r : list (R * R)) : Result (list R) :=
  if Nat.eqb (length p0) (length p0r) then Ok (zip_with absdiff p0 p0r)
  else match p0, p0r with
       | [a], _ => Ok (map (absdiff a) p0r)
       | _, [b] => Ok (map (fun a => absdiff a b) p0)
       | _, _ => Raise ValueError
       end.

(** [d < 1] *)
Definition goodTracks (d : list R) : list bool :=
  map (fun di => num_ltb di num_one) d.

(** [[tr.points[-1].asTuple() for tr in self.tracks]] *)
Fixpoint lastPoints (trs : list Track) : Result (list (R * R)) :=
  match trs with
  | [] => Ok []
  | tr :: rest =>
      match last (points tr) with
      | None => Raise IndexError
      | Some p =>
          match lastPoints rest with
          | Ok ps => Ok (Point_asTuple p :: ps)
          | Raise e => Raise e
          end
      end
  end.

(** The body of the loop for a good track: [tr.addPoint(x, y)], then
    [tr.removeOldest()] when the track has become too long. *)
Definition extend (maxLen : MaxLen) (tr : Track) (xy : R * R)
    : Result Track :=
  let tr1 := Track_addPoint tr (fst xy) (snd xy) in
  if exceeds (Track_numPoints tr1) maxLen then Track_removeOldest tr1
  else Ok tr1.

(** The [for tr, (x, y), goodFlag in zip(...)] loop.  The [Track] objects
    are shared between [self.tracks] and [newTracks] and are updated in
    place, so the result has two parts: the contents of the old list as
    the loop leaves it, and [newTracks] (or the exception that ended the
    loop, raised after [addPoint] has updated the current track). *)
Fixpoint extendLoop (maxLen : MaxLen) (trs : list Track)
    (p1 : list (R * R)) (good : list bool)
    : list Track * Result (list Track) :=
  match trs, p1, good with
  | tr :: trs', xy :: p1', goodFlag :: good' =>
      if negb goodFlag then
        let '(old, r) := extendLoop maxLen trs' p1' good' in
        (tr :: old, r)
      else
        match extend maxLen tr xy with
        | Raise e => (Track_addPoint tr (fst xy) (snd xy) :: trs', Raise e)
        | Ok tr' =>
            let '(old, r) := extendLoop maxLen trs' p1' good' in
            (tr' :: old,
             match r with
             | Ok newTracks => Ok (tr' :: newTracks)
             | Raise e => Raise e
             end)
        end
  | _, _, _ => (trs, Ok [])
  end.

(** The block under [if len(self.tracks) > 0]. *)
Definition extendTracks : M unit :=
  s <- get ;;
  p0 <- lift (lastPoints (tracks s)) ;;
  match lastGrayImage s with
  | None => lift (Raise AttributeError)
  | Some lg =>
      fwd <- lift (calcOpticalFlowPyrLK cv2 (Some lg) (grayImg s) p0) ;;
      let '(p1, st, err) := fwd in
      bwd <- lift (calcOpticalFlowPyrLK cv2 (grayImg s) (Some lg) p1) ;;
      let '(p0r, st, err) := bwd in
      d <- lift (roundTrip p0 p0r) ;;
      let '(old, r) :=
        extendLoop (maxTrackLength s) (tracks s) p1 (goodTracks d) in
      match r with
      | Ok newTracks => modify (set_tracks newTracks)
      | Raise e => run modify (set_tracks old) ;; lift (Raise e)
      end
  end.

(** [lastFrameDrawn == -1 or lastFrameDrawn > posFrames
     or (posFrames - lastFrameDrawn) > 1] *)
Definition discontinuity (s : Player) : bool :=
  (lastFrameDrawn s =? -1)%Z
  || (lastFrameDrawn s >? posFrames s)%Z
  || (posFrames s - lastFrameDrawn s >? 1)%Z.

(** [lastDetectionFrame == -1
     or (posFrames - lastDetectionFrame) >= detectionInterval] *)
Definition detectionDue (s : Player) : bool :=
  (lastDetectionFrame s =? -1)%Z
  || (posFrames s - lastDetectionFrame s >=? detectionInterval s)%Z.

(** [if <discontinuity>: self.resetTracks()] *)
Definition resetOnDiscontinuity : M unit :=
  s <- get ;;
  if discontinuity s then resetTracks else ret tt.

(** [if len(self.tracks) > 0: ...] *)
Definition extendIfAny : M unit :=
  s <- get ;;
  if (0 <? length (tracks s))%nat then extendTracks else ret tt.

(** [if <detection due>: self.getNewTracks()] *)
Definition detectIfDue : M unit :=
  s <- get ;;
  if detectionDue s then getNewTracks else ret tt.

(** The statements of [trackFeatures] before the detection test. *)
Definition trackExisting : M unit :=
  run getGrayImage ;;
  run resetOnDiscontinuity ;;
  extendIfAny.

Definition trackFeatures : M unit :=
  run trackExisting ;;
  detectIfDue.

(** [drawExtra] after [getForegroundFrame]; drawing the tracks changes
    only the displayed image and is left out. *)
Definition drawExtra : M unit :=
  run trackFeatures ;;
  modify (fun s => set_lastFrameDrawn (posFrames s) s).

(** Modelled from the spec: the frame source ([cvgui.cvPlayer], which is
    not part of this file).  On each tick it supplies the frame index and
    the raster, here together with the foreground mask and the tick's
    random colours, and then calls [drawExtra]; an exception ends the
    playback. *)
Record Frame : Type := mkFrame {
  f_pos : Z;
  f_img : Image;
  f_mask : option Image;
  f_rng : nat -> Color
}.

Definition tick (f : Frame) : M unit :=
  run modify (set_frame (f_pos f) (f_img f) (f_mask f) (f_rng f)) ;;
  drawExtra.

Fixpoint play (fs : list Frame) : M unit :=
  match fs with
  | [] => ret tt
  | f :: rest => run tick f ;; play rest
  end.

(** *** Vocabulary of the properties *)

(** A relation between the state before and after a method. *)
Definition preserves {A} (P : Player -> Player -> Prop) (m : M A) : Prop :=
  forall s r s', m s = (r, s') -> P s s'.

(** What no tracking method touches: the frame data, the configuration
    and [lastFrameDrawn]. *)
Definition same_frame (s s' : Player) : Prop :=
  posFrames s' = posFrames s /\ img s' = img s /\ fgmask s' = fgmask s /\
  rng s' = rng s /\ lastFrameDrawn s' = lastFrameDrawn s /\
  maxTrackLength s' = maxTrackLength s /\
  detectionInterval s' = detectionInterval s.

(** The keep rule in the specification's words (section 4.4): the success
    flag is set and the discrepancy is below the threshold.  The code's
    rule is [goodTracks]. *)
Definition specKept (successFlag : bool) (d threshold : R) : bool :=
  successFlag && num_ltb d threshold.

(** The tracks [getNewTracks] builds from the corners [cs] when the
    registry holds [n] tracks. *)
Definition spawned (rnd : nat -> Color) (n : nat) (cs : list (R * R))
    : list Track :=
  imap (fun i c =>
          Track_addPoint (Track__init__ (n + i) (rnd (n + i))) (fst c) (snd c))
       cs.

End Tracker.

Arguments Point R : clear implicits.
Arguments PyVal R : clear implicits.
Arguments Track R : clear implicits.
Arguments CV2 R Image : clear implicits.
Arguments Player R Image : clear implicits.
Arguments M R Image A : clear implicits.
Arguments get {R Image}.
Arguments resetTracks {R Image}.
Arguments resetOnDiscontinuity {R Image}.
Arguments same_frame {R Image}.
Arguments f_pos {Image}.

(** ** The rest of the file: run search, timing window, drawing *)

(** *** getFirstRunOfSize

    [bits] is a logical array, as at the call sites ([dl==255]); the
    conversion to [np.int32] makes it a list of 0 and 1. *)

(** [np.diff]: [out[i] = a[i+1] - a[i]]. *)
Definition np_diff (a : list Z) : list Z := zip_with Z.sub (tail a) a.

(** [np.where(cond)] on a one-dimensional array: the indices that satisfy
    the condition, in increasing order. *)
Fixpoint np_where_from (k : nat) (cond : Z -> bool) (a : list Z) : list nat :=
  match a with
  | [] => []
  | v :: rest =>
      (if cond v then [k] else []) ++ np_where_from (S k) cond rest
  end.

Definition np_where (cond : Z -> bool) (a : list Z) : list nat :=
  np_where_from 0 cond a.

(** [a[mask]] for a boolean mask. *)
Fixpoint np_select {A} (a : list A) (mask : list bool) : list A :=
  match a, mask with
  | v :: a', m :: mask' => (if m then [v] else []) ++ np_select a' mask'
  | _, _ => []
  end.

(** The result is [None] when the function falls off its end. *)
Definition getFirstRunOfSize (bits : list bool) (minSize : Z) : option nat :=
  let bits := map (fun b : bool => if b then 1 else 0)%Z bits in
  let bounded := [0%Z] ++ bits ++ [0%Z] in
  let difs := np_diff bounded in
  let runStarts := np_where (fun d => 0 <? d)%Z difs in
  let runEnds := np_where (fun d => d <? 0)%Z difs in
  let runLens :=
    zip_with (fun e s => Z.of_nat e - Z.of_nat s)%Z runEnds runStarts in
  let longEnough := map (fun n => minSize <? n)%Z runLens in
  if existsb id longEnough then head (np_select runStarts longEnough)
  else None.

(** *** What the drawing code adds to the exceptions and to the numbers *)

Inductive PyExn : Type :=
| NameError
| OverflowError
| Builtin (e : Exn).

Inductive Outcome (A : Type) : Type :=
| Done (a : A)
| Failed (e : PyExn).
Arguments Done {A} a.
Arguments Failed {A} e.

(** [int(round(v))] (which raises on NaN and on the infinities),
    [np.sqrt], the conversion to [np.int32] and [np.mean]. *)
Class Conversions (R : Type) := {
  num_int_round : R -> Outcome Z;
  num_sqrt : R -> R;
  num_int32 : R -> Z;
  num_mean : list R -> R
}.

(** A two-dimensional array of pixels, [shape = (height, width)]. *)
Record Array2 : Type := mkArray2 {
  height : nat;
  width : nat;
  pixel : nat -> nat -> Z
}.

(** An integer index into an axis of length [n]: negative indices count
    from the end, anything else out of range raises [IndexError]. *)
Definition py_index (n : nat) (i : Z) : Outcome nat :=
  if (0 <=? i)%Z && (i <? Z.of_nat n)%Z then Done (Z.to_nat i)
  else if (- Z.of_nat n <=? i)%Z && (i <? 0)%Z
       then Done (Z.to_nat (Z.of_nat n + i))
       else Failed (Builtin IndexError).

(** Where the slice [r:] of an axis of length [n] starts. *)
Definition py_slice_start (n : nat) (r : Z) : nat :=
  if (r <? 0)%Z then Z.to_nat (Z.max 0 (Z.of_nat n + r))
  else Z.to_nat (Z.min r (Z.of_nat n)).

(** [a[r:, c]] *)
Definition column_from (a : Array2) (r c : Z) : Outcome (list Z) :=
  match py_index (width a) c with
  | Failed e => Failed e
  | Done j =>
      let start := py_slice_start (height a) r in
      Done (map (fun i => pixel a i j) (seq start (height a - start)))
  end.

(** The truth value of what [getFirstRunOfSize] returns: [None] and the
    index 0 are false. *)
Definition truthy (i : option nat) : bool :=
  match i with
  | Some (S _) => true
  | _ => false
  end.

(** Devices of the proofs about [getFirstRunOfSize]: the first run that
    is long enough among paired starts and ends; the same search as one
    pass over the bits ([cur] is the start of the run the pass is in, [k]
    the index it has reached); the first [n] bits being set; and the least
    index at which [m + 1] set bits begin. *)
Definition pickRun (m : Z) (starts ends : list nat) : option nat :=
  head (np_select starts
          (map (fun n => m <? n)%Z
               (zip_with (fun e s => Z.of_nat e - Z.of_nat s)%Z ends starts))).

Fixpoint scanRuns (m : Z) (cur : option nat) (k : nat) (l : list bool)
    : option nat :=
  match l with
  | [] =>
      match cur with
      | Some s => if (m <? Z.of_nat k - Z.of_nat s)%Z then Some s else None
      | None => None
      end
  | true :: l' =>
      scanRuns m (Some (match cur with Some s => s | None => k end)) (S k) l'
  | false :: l' =>
      match cur with
      | Some s =>
          if (m <? Z.of_nat k - Z.of_nat s)%Z then Some s
          else scanRuns m None (S k) l'
      | None => scanRuns m None (S k) l'
      end
  end.

Fixpoint allSet (n : nat) (l : list bool) : bool :=
  match n with
  | 0 => true
  | S n' =>
      match l with
      | true :: l' => allSet n' l'
      | _ => false
      end
  end.

Fixpoint firstWindow (m : nat) (l : list bool) : option nat :=
  match l with
  | [] => None
  | _ :: l' =>
      if allSet (S m) l then Some 0 else option_map S (firstWindow m l')
  end.

Section Rest.

Context {R : Type} `{Number R} `{Conversions R}.

(** *** makeAvgTime, on the list [self.times] *)
Definition makeAvgTime (times : list R) (tElapsed : R) : list R * R :=
  let times1 := if (20 <? length times)%nat then tail times else times in
  let times2 := times1 ++ [tElapsed] in
  (times2, num_mean times2).

(** *** Point.norm2 and Track.pointArray *)
Definition Point_norm2 (self : Point R) : R :=
  num_sqrt (Point_norm2Squared self).

Definition Track_pointArray_int32 (self : Track R) : list (Z * Z) :=
  map (fun p => (num_int32 (x p), num_int32 (y p))) (points self).

(** *** drawTrack

    [fgnoshad] is the foreground mask of the frame; the result is what is
    handed to [cv2.polylines], if anything.  The [print] statement reads
    the name [i], which is bound nowhere (not in the function, the module
    or the builtins): evaluating its arguments raises [NameError]. *)
Definition drawTrack (fgnoshad : Array2) (minFeatureTime : Z)
    (t : Track R) (perturb : Z) : Outcome (option (list (Z * Z) * Color)) :=
  if (minFeatureTime <=? Z.of_nat (length (points t)))%Z then
    match lastPos t with
    | None => Failed (Builtin AttributeError)
    | Some lp =>
        match num_int_round (y lp) with
        | Failed e => Failed e
        | Done r =>
        match num_int_round (x lp) with
        | Failed e => Failed e
        | Done c =>
            let cl := Z.max 0 (c - perturb) in
            let cr := Z.min (Z.of_nat (width fgnoshad) - 1) (c + perturb) in
            match column_from fgnoshad r cl with
            | Failed e => Failed e
            | Done dl =>
            match column_from fgnoshad r cr with
            | Failed e => Failed e
            | Done dr =>
                let printed :=
                  if existsb (Z.eqb 255) dl && existsb (Z.eqb 255) dr then
                    let il :=
                      getFirstRunOfSize (map (fun v => v =? 255)%Z dl) 2 in
                    let ir :=
                      getFirstRunOfSize (map (fun v => v =? 255)%Z dr) 2 in
                    if truthy il && truthy ir then Failed NameError
                    else Done tt
                  else Done tt in
                match printed with
                | Failed e => Failed e
                | Done _ =>
                    match lastVel t with
                    | None => Done None
                    | Some v =>
                        if num_ltb num_one (Point_norm2 v)
                        then Done (Some (Track_pointArray_int32 t, color t))
                        else Done None
                    end
                end
            end
            end
        end
        end
    end
  else Done None.

(** [self.minFeatureTime] and the default of [perturb]. *)
Definition minFeatureTime : Z := 3.
Definition perturb_default : Z := 5.

(** [for t in self.tracks: self.drawTrack(t)] *)
Fixpoint drawTracks (fgnoshad : Array2) (ts : list (Track R))
    : Outcome (list (option (list (Z * Z) * Color))) :=
  match ts with
  | [] => Done []
  | t :: rest =>
      match drawTrack fgnoshad minFeatureTime t perturb_default with
      | Failed e => Failed e
      | Done d =>
          match drawTracks fgnoshad rest with
          | Failed e => Failed e
          | Done ds => Done (d :: ds)
          end
      end
  end.

(** [drawExtra] after [getForegroundFrame], with the drawing loop: the
    frame is recorded in [lastFrameDrawn] only when every step before
    returns. *)
Definition drawExtraTracks {Image : Type} (cv2 : CV2 R Image)
    (fgnoshad : Array2) (s : Player R Image)
    : Outcome (list (option (list (Z * Z) * Color))) * Player R Image :=
  match trackFeatures cv2 s with
  | (Raise e, s1) => (Failed (Builtin e), s1)
  | (Ok _, s1) =>
      match drawTracks fgnoshad (tracks s1) with
      | Failed e => (Failed e, s1)
      | Done drawn => (Done drawn, set_lastFrameDrawn (posFrames s1) s1)
      end
  end.

(** *** Vocabulary of the further properties *)

(** [m + 1] set bits in a row start at index [i] of [bits]. *)
Definition windowAt (bits : list bool) (m i : nat) : Prop :=
  forall j, i <= j <= i + m -> bits !! j = Some true.

(** A track as [addPoint] alone builds it: at least one point, the
    velocities are the differences of consecutive points, and [lastPos],
    [lastVel] are the last entries. *)
Definition derived (t : Track R) : Prop :=
  points t <> [] /\
  velocity t = zip_with Point__sub__ (tail (points t)) (points t) /\
  lastPos t = last (points t) /\
  lastVel t = last (velocity t).

End Rest.

(** ** Concrete scenes

    Rational coordinates; an image is identified by the index of the frame
    it was taken from.  The optical flow of a scene finds every point
    where it was, except that the backward pass of frame [driftAt] returns
    the first point three pixels off; [status] is the flag it reports for
    every point; [corners k] is what the detector returns on frame [k]. *)
Module Scene.

Definition black : Color := (0, 0, 0)%Z.

Definition frame (k : Z) : Frame Z := mkFrame k k (Some k) (fun _ => black).

Definition frames (n : nat) : list (Frame Z) :=
  map (fun i => frame (Z.of_nat i)) (seq 0 n).

Definition flow (status : bool) (pts : list (Q * Q))
    : list (Q * Q) * list bool * list Q :=
  (pts, map (fun _ => status) pts, map (fun _ => 0%Q) pts).

Definition drift (pts : list (Q * Q)) : list (Q * Q) :=
  match pts with
  | (a, b) :: rest => ((a + 3)%Q, b) :: rest
  | [] => []
  end.

Definition cv2 (status : bool) (driftAt : Z)
    (corners : Z -> Result (option (list (Q * Q)))) : CV2 Q Z := {|
  cvtColor := fun i => Ok i;
  calcOpticalFlowPyrLK := fun prev next pts =>
    match prev, next with
    | Some a, Some b =>
        if (a <? b)%Z then Ok (flow status pts)
        else if (a =? driftAt)%Z then Ok (flow status (drift pts))
        else Ok (flow status pts)
    | _, _ => Raise CvError
    end;
  goodFeaturesToTrack := fun gray mask =>
    match gray with
    | Some k => corners k
    | None => Raise CvError
    end
|}.

(** Two corners on frame 0, one on frame 5, none elsewhere. *)
Definition corners_0_5 (k : Z) : Result (option (list (Q * Q))) :=
  if (k =? 0)%Z then Ok (Some [(10%Q, 10%Q); (20%Q, 20%Q)])
  else if (k =? 5)%Z then Ok (Some [(30%Q, 30%Q)])
  else Ok None.

(** Two corners on frame 0; the detector fails on frame 5. *)
Definition corners_fail_5 (k : Z) : Result (option (list (Q * Q))) :=
  if (k =? 0)%Z then Ok (Some [(10%Q, 10%Q); (20%Q, 20%Q)])
  else if (k =? 5)%Z then Raise CvError
  else Ok None.

(** A scene whose optical flow always fails. *)
Definition cv2_no_flow (corners : Z -> Result (option (list (Q * Q))))
    : CV2 Q Z := {|
  cvtColor := fun i => Ok i;
  calcOpticalFlowPyrLK := fun _ _ _ => Raise CvError;
  goodFeaturesToTrack := fun gray mask =>
    match gray with
    | Some k => corners k
    | None => Raise CvError
    end
|}.

Definition init : Player Q Z := Player__init__ 5 0%Z.

(** The player as frame [k] reaches [trackFeatures]. *)
Definition at_frame (k : Z) (s : Player Q Z) : Player Q Z :=
  set_frame k k (Some k) (fun _ => black) s.

(** The same, once this frame's grayscale image is there. *)
Definition in_frame (cv : CV2 Q Z) (k : Z) (s : Player Q Z) : Player Q Z :=
  snd (getGrayImage cv (at_frame k s)).

(** A short summary of the registry: id, number of points, number of
    velocities of each track. *)
Definition shape (s : Player Q Z) : list (nat * nat * nat) :=
  map (fun t => (trackId t, length (points t), length (velocity t)))
      (tracks s).

End Scene.

(** ** A concrete canvas

    The conversions on rational coordinates, for the concrete runs of the
    drawing code: Python's [round] goes half away from zero, the
    conversion to an integer type drops the fraction, and the square root
    is approximated by Heron's steps. *)
Module Canvas.

Definition Qint_round (q : Q) : Z :=
  if Qle_bool 0 q then Qfloor (q + (1 # 2))
  else (- Qfloor (- q + (1 # 2)))%Z.

Definition Qtrunc (q : Q) : Z :=
  if Qle_bool 0 q then Qfloor q else Qceiling q.

Fixpoint heron (n : nat) (q a : Q) : Q :=
  match n with
  | 0 => a
  | S n' => heron n' q (Qred ((a + q / a) / 2))
  end.

Definition Qsqrt (q : Q) : Q :=
  if Qle_bool q 0 then 0%Q else heron 6 q 1%Q.

Definition Qmean (l : list Q) : Q :=
  Qred (fold_right Qplus 0%Q l / inject_Z (Z.of_nat (length l))).

#[export] Instance Q_Conversions : Conversions Q := {|
  num_int_round := fun q => Done (Qint_round q);
  num_sqrt := Qsqrt;
  num_int32 := Qtrunc;
  num_mean := Qmean
|}.

(** A mask of 10 rows and 20 columns whose rows 5 to 8 are foreground. *)
Definition blob : Array2 :=
  mkArray2 10 20 (fun i _ => if (5 <=? i)%nat && (i <=? 8)%nat then 255%Z
                             else 0%Z).


(** A track of three points that ends at column 10, row 2, and one that
    ends at column 10, row 5, on the upper edge of the foreground. *)
Definition above : Track Q :=
  Track_addPoint
    (Track_addPoint
       (Track_addPoint (Track__init__ 0 Scene.black) 10%Q 0%Q) 10%Q 1%Q)
    10%Q 2%Q.

Definition on_edge : Track Q :=
  Track_addPoint
    (Track_addPoint
       (Track_addPoint (Track__init__ 1 Scene.black) 10%Q 1%Q) 10%Q 3%Q)
    10%Q 5%Q.

End Canvas.

(** * Properties *)

Section Properties.

Context {R : Type} `{Number R} {Image : Type} (cv2 : CV2 R Image).

Abbreviation Player := (Player R Image).
Abbreviation Track := (Track R).
Abbreviation M := (M R Image).

(** ** Running the monad *)

Lemma bind_inv_ok {A B} (m : M A) (k : A -> M B) s b s2 :
  bind m k s = (Ok b, s2) ->
  exists a s1, m s = (Ok a, s1) /\ k a s1 = (Ok b, s2).
Proof.
  unfold bind. destruct (m s) as [[a|e] s1]; intros E.
  - exists a, s1. split; [reflexivity | exact E].
  - discriminate E.
Qed.

Section Preservation.

Variable P : Player -> Player -> Prop.
Hypothesis P_refl : forall s, P s s.
Hypothesis P_trans : forall s1 s2 s3, P s1 s2 -> P s2 s3 -> P s1 s3.

Lemma preserves_ret {A} (a : A) : preserves P (ret a).
Proof. intros s r s' E. inversion E. apply P_refl. Qed.

Lemma preserves_get : preserves P get.
Proof. intros s r s' E. inversion E. apply P_refl. Qed.

Lemma preserves_lift {A} (r : Result A) : preserves P (lift r).
Proof. intros s r' s' E. inversion E. apply P_refl. Qed.

Lemma preserves_modify f : (forall s, P s (f s)) -> preserves P (modify f).
Proof. intros Hf s r s' E. inversion E. apply Hf. Qed.

Lemma preserves_bind {A B} (m : M A) (k : A -> M B) :
  preserves P m -> (forall a, preserves P (k a)) -> preserves P (bind m k).
Proof.
  intros Hm Hk s r s'. unfold bind.
  destruct (m s) as [[a|e] s1] eqn:E; intros E'.
  - apply (P_trans (Hm _ _ _ E)). eapply Hk. exact E'.
  - inversion E'. subst. eapply Hm. exact E.
Qed.

End Preservation.

Lemma same_frame_refl (s : Player) : same_frame s s.
Proof. repeat split. Qed.

Lemma same_frame_trans (s1 s2 s3 : Player) :
  same_frame s1 s2 -> same_frame s2 s3 -> same_frame s1 s3.
Proof.
  unfold same_frame. intros (a1 & a2 & a3 & a4 & a5 & a6 & a7)
    (b1 & b2 & b3 & b4 & b5 & b6 & b7).
  repeat split; congruence.
Qed.

Ltac frame_step :=
  first
    [ apply preserves_ret; apply same_frame_refl
    | apply preserves_get; apply same_frame_refl
    | apply preserves_lift; apply same_frame_refl
    | apply preserves_modify; intros; repeat split
    | apply preserves_bind; [ exact same_frame_trans | | intros ] ].

Lemma getGrayImage_frame : preserves same_frame (getGrayImage cv2).
Proof.
  unfold getGrayImage. frame_step; [frame_step|].
  frame_step; [destruct (grayImg a); frame_step|].
  frame_step; frame_step.
Qed.

Lemma spawnAll_frame cs : preserves same_frame (spawnAll (Image:=Image) cs).
Proof.
  induction cs as [|c cs IH]; simpl; [frame_step|].
  frame_step; [|exact IH].
  unfold spawn. frame_step; frame_step.
Qed.

Lemma getNewTracks_frame : preserves same_frame (getNewTracks cv2).
Proof.
  unfold getNewTracks. frame_step; [frame_step|].
  frame_step; [frame_step|].
  frame_step; [|frame_step].
  destruct a0; [apply spawnAll_frame | frame_step].
Qed.

Lemma extendTracks_frame : preserves same_frame (extendTracks cv2).
Proof.
  unfold extendTracks. frame_step; [frame_step|].
  frame_step; [frame_step|].
  destruct (lastGrayImage a); [|frame_step].
  frame_step; [frame_step|]. destruct a1 as [[p1 st] err].
  frame_step; [frame_step|]. destruct a1 as [[p0r st'] err'].
  frame_step; [frame_step|].
  destruct (extendLoop _ _ _ _) as [old [new|e]]; [frame_step|].
  frame_step; frame_step.
Qed.

Lemma trackFeatures_frame : preserves same_frame (trackFeatures cv2).
Proof.
  unfold trackFeatures, trackExisting, resetOnDiscontinuity, extendIfAny,
    detectIfDue, resetTracks.
  frame_step; [|frame_step; [frame_step|];
    destruct (detectionDue _); [apply getNewTracks_frame | frame_step]].
  frame_step; [apply getGrayImage_frame|].
  frame_step.
  { frame_step; [frame_step|]. destruct (discontinuity _); frame_step. }
  frame_step; [frame_step|].
  destruct (_ <? _)%nat; [apply extendTracks_frame | frame_step].
Qed.

(** ** Point and Track *)

Lemma op_add_ok (p q : Point R) : op_add p q = Ok (Point__add__ p q).
Proof. reflexivity. Qed.

Lemma op_sub_ok (p q : Point R) : op_sub p q = Ok (Point__sub__ p q).
Proof. reflexivity. Qed.

(** C7 (the code differs): [__neg__] is declared with a second positional
    parameter, so the unary minus of every Point raises [TypeError]
    instead of returning the Point (-x, -y). *)
Theorem negation_raises_TypeError (p : Point R) :
  op_neg p = Raise TypeError.
Proof. reflexivity. Qed.

Lemma addPoint_points (tr : Track) px py :
  points (Track_addPoint tr px py) = points tr ++ [mkPoint px py].
Proof. unfold Track_addPoint. destruct (last (points tr)); reflexivity. Qed.

Lemma addPoint_trackId (tr : Track) px py :
  trackId (Track_addPoint tr px py) = trackId tr.
Proof. unfold Track_addPoint. destruct (last (points tr)); reflexivity. Qed.

Lemma addPoint_velocity (tr : Track) px py :
  length (velocity tr) + 1 = length (points tr) ->
  length (velocity (Track_addPoint tr px py)) + 1
  = length (points (Track_addPoint tr px py)).
Proof.
  unfold Track_addPoint. intros E.
  destruct (last (points tr)) as [q|] eqn:L; simpl.
  - rewrite !length_app. simpl. lia.
  - apply last_None in L. rewrite L in E. simpl in E. lia.
Qed.

(** Extending a track never raises: [addPoint] leaves a point to pop. *)
Lemma extend_total maxLen (tr : Track) (xy : R * R) :
  exists tr',
    extend maxLen tr xy = Ok tr' /\ trackId tr' = trackId tr /\
    points tr'
    = (if exceeds (length (points tr) + 1) maxLen
       then tail (points tr ++ [mkPoint (fst xy) (snd xy)])
       else points tr ++ [mkPoint (fst xy) (snd xy)]).
Proof.
  unfold extend, Track_numPoints. rewrite addPoint_points, length_app.
  simpl length. destruct (exceeds _ _).
  - unfold Track_removeOldest. rewrite addPoint_points.
    destruct (points tr ++ _) as [|p0 rest] eqn:E.
    + destruct (points tr); discriminate E.
    + eexists. split; [reflexivity|]. simpl. split; [|reflexivity].
      apply addPoint_trackId.
  - eexists. split; [reflexivity|]. split.
    + apply addPoint_trackId.
    + apply addPoint_points.
Qed.

(** ** The steps of trackFeatures, run *)

Lemma getGrayImage_run (s : Player) :
  getGrayImage cv2 s
  = let s1 := match grayImg s with
              | Some g => set_lastGrayImage (Some g) s
              | None => s
              end in
    match cvtColor cv2 (img s) with
    | Ok g => (Ok tt, set_grayImg (Some g) s1)
    | Raise e => (Raise e, s1)
    end.
Proof.
  unfold getGrayImage, bind, get, modify, lift, ret.
  destruct (grayImg s); destruct (cvtColor cv2 (img s)); reflexivity.
Qed.

Lemma set_tracks_same (s : Player) : set_tracks (tracks s) s = s.
Proof. destruct s; reflexivity. Qed.

Lemma spawned_cons rnd n (c : R * R) cs :
  spawned rnd n (c :: cs)
  = Track_addPoint (Track__init__ n (rnd n)) (fst c) (snd c)
    :: spawned rnd (S n) cs.
Proof.
  unfold spawned. rewrite imap_cons. rewrite Nat.add_0_r. f_equal.
  apply imap_ext. intros i c' _. simpl.
  replace (n + S i) with (S (n + i)) by lia. reflexivity.
Qed.

(** Without a trim the velocities stay one fewer than the points. *)
Lemma untrimmed_extension_keeps_velocity_count (tr : Track) (xy : R * R) :
  length (velocity tr) + 1 = length (points tr) ->
  exists tr',
    extend Inf tr xy = Ok tr' /\
    length (velocity tr') + 1 = length (points tr').
Proof.
  intros E. exists (Track_addPoint tr (fst xy) (snd xy)).
  split; [reflexivity|]. apply addPoint_velocity. exact E.
Qed.

(** [removeOldest] pops a point and leaves [velocity] alone, so after any
    trim there are as many velocities as points. *)
Lemma trimmed_extension_velocity_count maxLen (tr : Track) (xy : R * R) :
  length (velocity tr) + 1 = length (points tr) ->
  exceeds (length (points tr) + 1) maxLen = true ->
  exists tr',
    extend maxLen tr xy = Ok tr' /\
    length (velocity tr') = length (points tr').
Proof.
  intros E Hx. unfold extend, Track_numPoints.
  pose proof (addPoint_velocity (fst xy) (snd xy) E) as Ev.
  pose proof (addPoint_points tr (fst xy) (snd xy)) as Ep.
  rewrite Ep, length_app. simpl length. rewrite Hx.
  unfold Track_removeOldest.
  destruct (points (Track_addPoint tr (fst xy) (snd xy))) as [|p rest] eqn:Eq.
  - destruct (points tr); discriminate Ep.
  - eexists. split; [reflexivity|]. simpl. simpl in Ev. lia.
Qed.

(** The ids [getNewTracks] hands out count up from the registry size. *)
Lemma spawned_ids rnd n (cs : list (R * R)) :
  map trackId (spawned rnd n cs) = seq n (length cs).
Proof.
  revert n. induction cs as [|c cs IH]; intros n; [reflexivity|].
  rewrite spawned_cons. simpl. f_equal. apply IH.
Qed.

Lemma spawnAll_run cs (s : Player) :
  spawnAll cs s
  = (Ok tt, set_tracks (tracks s ++ spawned (rng s) (length (tracks s)) cs) s).
Proof.
  revert s. induction cs as [|c cs IH]; intros s.
  - simpl. unfold ret, spawned. simpl. rewrite app_nil_r.
    rewrite set_tracks_same. reflexivity.
  - simpl. unfold bind, spawn, get, modify. simpl. rewrite IH. simpl.
    rewrite spawned_cons, length_app. simpl length.
    rewrite Nat.add_1_r, <- app_assoc. reflexivity.
Qed.

Lemma getNewTracks_run (s : Player) :
  getNewTracks cv2 s
  = match goodFeaturesToTrack cv2 (grayImg s) (fgmask s) with
    | Raise e => (Raise e, s)
    | Ok corners =>
        let cs := match corners with Some cs => cs | None => [] end in
        (Ok tt,
         set_lastDetectionFrame (posFrames s)
           (set_tracks (tracks s ++ spawned (rng s) (length (tracks s)) cs) s))
    end.
Proof.
  unfold getNewTracks, bind, get, lift, modify.
  destruct (goodFeaturesToTrack _ _ _) as [[cs|]|e]; [| |reflexivity].
  - rewrite spawnAll_run. reflexivity.
  - unfold ret, spawned. simpl. rewrite app_nil_r, set_tracks_same.
    reflexivity.
Qed.

Lemma discontinuity_iff (s : Player) :
  discontinuity s = true <->
  (lastFrameDrawn s = -1 \/ posFrames s < lastFrameDrawn s
   \/ posFrames s - lastFrameDrawn s > 1)%Z.
Proof.
  unfold discontinuity. rewrite !orb_true_iff, Z.eqb_eq, !Z.gtb_gt. lia.
Qed.

Lemma detectionDue_iff (s : Player) :
  detectionDue s = true <->
  (lastDetectionFrame s = -1
   \/ posFrames s - lastDetectionFrame s >= detectionInterval s)%Z.
Proof.
  unfold detectionDue. rewrite orb_true_iff, Z.eqb_eq, Z.geb_ge. reflexivity.
Qed.

Lemma trackExisting_run (s : Player) :
  trackExisting cv2 s
  = match getGrayImage cv2 s with
    | (Raise e, s1) => (Raise e, s1)
    | (Ok _, s1) =>
        let s2 := if discontinuity s1 then set_tracks [] s1 else s1 in
        if (0 <? length (tracks s2))%nat then extendTracks cv2 s2
        else (Ok tt, s2)
    end.
Proof.
  unfold trackExisting. unfold bind at 1.
  destruct (getGrayImage cv2 s) as [[[]|e] s1]; [|reflexivity].
  unfold resetOnDiscontinuity, extendIfAny, resetTracks,
    bind, get, modify, ret.
  destruct (discontinuity s1); simpl; [reflexivity|].
  destruct (0 <? length (tracks s1))%nat; reflexivity.
Qed.

Lemma trackFeatures_run (s : Player) :
  trackFeatures cv2 s
  = match trackExisting cv2 s with
    | (Raise e, s3) => (Raise e, s3)
    | (Ok _, s3) =>
        if detectionDue s3 then getNewTracks cv2 s3 else (Ok tt, s3)
    end.
Proof.
  unfold trackFeatures, bind.
  destruct (trackExisting cv2 s) as [[[]|e] s3]; [|reflexivity].
  unfold detectIfDue, bind, get, ret.
  destruct (detectionDue s3); reflexivity.
Qed.

(** ** The extension loop *)

Lemma extendLoop_survivors maxLen (trs : list Track) p1 good :
  exists (survivors : list (Track * (R * R))) (new : list Track),
    snd (extendLoop maxLen trs p1 good) = Ok new /\
    sublist (map fst survivors) trs /\
    Forall2 (fun sv tr' => extend maxLen (fst sv) (snd sv) = Ok tr')
            survivors new.
Proof.
  revert p1 good. induction trs as [|tr trs IH]; intros p1 good.
  - exists [], []. repeat split; constructor.
  - destruct p1 as [|xy p1]; [exists [], []; repeat split;
      [apply sublist_nil_l | constructor]|].
    destruct good as [|g good]; [exists [], []; repeat split;
      [apply sublist_nil_l | constructor]|].
    destruct (IH p1 good) as (sv & new & E & Hsub & Hall).
    simpl. destruct (extendLoop maxLen trs p1 good) as [old r].
    simpl in E. subst r. destruct g; simpl.
    + destruct (extend_total maxLen tr xy) as (tr' & Ex & _).
      rewrite Ex. exists ((tr, xy) :: sv), (tr' :: new).
      repeat split; [|constructor; [exact Ex | exact Hall]].
      simpl. apply sublist_skip. exact Hsub.
    + exists sv, new. repeat split; [|exact Hall].
      apply sublist_cons. exact Hsub.
Qed.

Lemma extendLoop_decisions maxLen (trs : list Track) p1 good :
  length p1 = length trs -> length good = length trs ->
  exists keptOf : list (option Track),
    length keptOf = length trs /\
    snd (extendLoop maxLen trs p1 good) = Ok (omap id keptOf) /\
    forall i tr xy g,
      trs !! i = Some tr -> p1 !! i = Some xy -> good !! i = Some g ->
      (g = true ->
       exists tr', extend maxLen tr xy = Ok tr' /\
                   keptOf !! i = Some (Some tr')) /\
      (g = false -> keptOf !! i = Some None).
Proof.
  revert p1 good. induction trs as [|tr trs IH]; intros p1 good L1 L2.
  - exists []. repeat split; intros; discriminate.
  - destruct p1 as [|xy p1]; [discriminate L1|].
    destruct good as [|g good]; [discriminate L2|].
    simpl in L1, L2.
    destruct (IH p1 good) as (ks & Lk & E & Hk); [lia | lia |].
    simpl. destruct (extendLoop maxLen trs p1 good) as [old r].
    simpl in E. subst r. destruct g; simpl.
    + destruct (extend_total maxLen tr xy) as (tr' & Ex & _).
      rewrite Ex. exists (Some tr' :: ks). split; [simpl; lia|].
      split; [reflexivity|].
      intros [|i] tr0 xy0 g0 H1 H2 H3; simpl in *.
      * inversion H1; inversion H2; inversion H3; subst.
        split; [intros _; exists tr'; split; [exact Ex | reflexivity]
               | discriminate].
      * eapply Hk; eassumption.
    + exists (None :: ks). split; [simpl; lia|]. split; [reflexivity|].
      intros [|i] tr0 xy0 g0 H1 H2 H3; simpl in *.
      * inversion H3; subst. split; [discriminate | reflexivity].
      * eapply Hk; eassumption.
Qed.

Lemma lastPoints_lookup (trs : list Track) p0 i tr :
  lastPoints trs = Ok p0 -> trs !! i = Some tr ->
  exists a, p0 !! i = Some a /\
            last (points tr) = Some (mkPoint (fst a) (snd a)).
Proof.
  revert p0 i. induction trs as [|t trs IH]; intros p0 i E Hi.
  - discriminate Hi.
  - simpl in E. destruct (last (points t)) as [p|] eqn:Lp; [|discriminate E].
    destruct (lastPoints trs) as [ps|e] eqn:Eps; [|discriminate E].
    inversion E; subst. destruct i as [|i]; simpl in *.
    + inversion Hi; subst. exists (Point_asTuple p). split; [reflexivity|].
      rewrite Lp. destruct p; reflexivity.
    + eapply IH; [reflexivity | exact Hi].
Qed.

Lemma lastPoints_length (trs : list Track) p0 :
  lastPoints trs = Ok p0 -> length p0 = length trs.
Proof.
  revert p0. induction trs as [|t trs IH]; intros p0 E; simpl in E.
  - inversion E. reflexivity.
  - destruct (last (points t)); [|discriminate E].
    destruct (lastPoints trs) as [ps|e]; [|discriminate E].
    inversion E. simpl. f_equal. apply IH. reflexivity.
Qed.

(** The extension block either raises and leaves the player as it was,
    or replaces the registry by the loop's [newTracks]. *)
Lemma extendTracks_cases (s : Player) :
  (exists e, extendTracks cv2 s = (Raise e, s)) \/
  (exists p0 lg p1 st err p0r st' err' d new,
     lastPoints (tracks s) = Ok p0 /\ lastGrayImage s = Some lg /\
     calcOpticalFlowPyrLK cv2 (Some lg) (grayImg s) p0 = Ok (p1, st, err) /\
     calcOpticalFlowPyrLK cv2 (grayImg s) (Some lg) p1 = Ok (p0r, st', err') /\
     roundTrip p0 p0r = Ok d /\
     snd (extendLoop (maxTrackLength s) (tracks s) p1 (goodTracks d)) = Ok new /\
     extendTracks cv2 s = (Ok tt, set_tracks new s)).
Proof.
  unfold extendTracks, bind, get, lift.
  destruct (lastPoints (tracks s)) as [p0|e] eqn:E0; [|left; eauto].
  destruct (lastGrayImage s) as [lg|] eqn:Elg; [|left; eauto].
  destruct (calcOpticalFlowPyrLK cv2 (Some lg) (grayImg s) p0)
    as [[[p1 st] err]|e] eqn:Ef; [|left; eauto].
  destruct (calcOpticalFlowPyrLK cv2 (grayImg s) (Some lg) p1)
    as [[[p0r st'] err']|e] eqn:Eb; [|left; eauto].
  destruct (roundTrip p0 p0r) as [d|e] eqn:Ed; [|left; eauto].
  destruct (extendLoop_survivors (maxTrackLength s) (tracks s) p1 (goodTracks d))
    as (sv & new & En & _).
  destruct (extendLoop _ _ _ _) as [old r] eqn:EL. simpl in En. subst r.
  right. exists p0, lg, p1, st, err, p0r, st', err', d, new.
  rewrite EL. repeat split; first [assumption | reflexivity].
Qed.

(** ** The part of a frame before detection *)

Lemma trackExisting_frame : preserves same_frame (trackExisting cv2).
Proof.
  unfold trackExisting, resetOnDiscontinuity, extendIfAny, resetTracks.
  frame_step; [apply getGrayImage_frame|].
  frame_step.
  { frame_step; [frame_step|]. destruct (discontinuity _); frame_step. }
  frame_step; [frame_step|].
  destruct (_ <? _)%nat; [apply extendTracks_frame | frame_step].
Qed.

Lemma detectionDue_ext (s s' : Player) :
  posFrames s' = posFrames s ->
  lastDetectionFrame s' = lastDetectionFrame s ->
  detectionInterval s' = detectionInterval s ->
  detectionDue s' = detectionDue s.
Proof. unfold detectionDue. intros -> -> ->. reflexivity. Qed.

(** A failure before detection leaves the registry as it was. *)
Lemma trackExisting_raise (s : Player) e s3 :
  trackExisting cv2 s = (Raise e, s3) ->
  tracks s3 = tracks s /\ lastDetectionFrame s3 = lastDetectionFrame s.
Proof.
  rewrite trackExisting_run, getGrayImage_run. cbv zeta.
  destruct (cvtColor cv2 (img s)) as [g|e'].
  - destruct (discontinuity _); [discriminate|].
    destruct (0 <? length _)%nat; [|discriminate].
    destruct (extendTracks_cases
                (set_grayImg (Some g)
                   match grayImg s with
                   | Some g0 => set_lastGrayImage (Some g0) s
                   | None => s
                   end)) as [[e' E]|(? & ? & ? & ? & ? & ? & ? & ? & ? & ? & E)].
    + rewrite E. intros E'. inversion E'; subst.
      destruct (grayImg s); split; reflexivity.
    + destruct E as (_ & _ & _ & _ & _ & _ & E). rewrite E. discriminate.
  - intros E'. inversion E'; subst. destruct (grayImg s); split; reflexivity.
Qed.

(** A successful one keeps, in their order, some of the old tracks, each
    extended by one point. *)
Lemma trackExisting_ok (s : Player) s3 :
  trackExisting cv2 s = (Ok tt, s3) ->
  lastDetectionFrame s3 = lastDetectionFrame s /\
  (discontinuity s = true -> tracks s3 = []) /\
  exists (survivors : list (Track * (R * R))),
    sublist (map fst survivors) (tracks s) /\
    Forall2 (fun sv tr' =>
               extend (maxTrackLength s) (fst sv) (snd sv) = Ok tr')
            survivors (tracks s3).
Proof.
  rewrite trackExisting_run, getGrayImage_run. cbv zeta.
  destruct (cvtColor cv2 (img s)) as [g|e']; [|discriminate].
  set (s1 := set_grayImg (Some g) _).
  assert (F1 : tracks s1 = tracks s /\
               lastDetectionFrame s1 = lastDetectionFrame s /\
               maxTrackLength s1 = maxTrackLength s /\
               discontinuity s1 = discontinuity s).
  { subst s1. destruct (grayImg s); repeat split. }
  destruct F1 as (Ft & Fd & Fm & Fj). rewrite Fj.
  destruct (discontinuity s).
  - simpl. intros E. inversion E; subst. simpl.
    split; [exact Fd|]. split; [reflexivity|].
    exists []. split; [apply sublist_nil_l | constructor].
  - destruct (0 <? length (tracks s1))%nat eqn:El.
    + destruct (extendTracks_cases s1)
        as [[e' E]|(p0 & lg & p1 & st & err & p0r & st' & err' & d & new
                    & _ & _ & _ & _ & _ & En & E)];
        rewrite E; [discriminate|].
      intros E'. inversion E'; subst s3. simpl.
      split; [exact Fd|]. split; [discriminate|].
      destruct (extendLoop_survivors (maxTrackLength s1) (tracks s1) p1
                  (goodTracks d)) as (sv & new' & En' & Hsub & Hall).
      rewrite En in En'. inversion En'; subst new'.
      exists sv. rewrite <- Ft, <- Fm. split; assumption.
    + intros E. inversion E; subst s3.
      split; [exact Fd|]. split; [discriminate|].
      apply Nat.ltb_ge in El.
      destruct (tracks s1) as [|t ts] eqn:Et; [|simpl in El; lia].
      exists []. split; [apply sublist_nil_l | constructor].
Qed.

(** ** The claims that hold as stated *)

(** C4: the registry is reset exactly when the frame is the first one
    ([lastFrameDrawn] is the sentinel -1), or the frame index is below the
    last one drawn, or exceeds it by more than 1.  After such a reset the
    outcome of the frame (once its grayscale image is there) does not
    depend on the old tracks at all: every track left is a single-point
    track spawned in this frame. *)
Theorem reset_exactly_on_discontinuity (s : Player) :
  (discontinuity s = true <->
   (lastFrameDrawn s = -1 \/ posFrames s < lastFrameDrawn s
    \/ posFrames s - lastFrameDrawn s > 1)%Z) /\
  (discontinuity s = true ->
   resetOnDiscontinuity s = (Ok tt, set_tracks [] s)) /\
  (discontinuity s = false -> resetOnDiscontinuity s = (Ok tt, s)) /\
  (discontinuity s = true ->
   (forall g, cvtColor cv2 (img s) = Ok g ->
              trackFeatures cv2 s = trackFeatures cv2 (set_tracks [] s)) /\
   forall s', trackFeatures cv2 s = (Ok tt, s') ->
              exists cs, tracks s' = spawned (rng s) 0 cs).
Proof.
  split; [apply discontinuity_iff|].
  split; [intros D; unfold resetOnDiscontinuity, bind, get; rewrite D;
          reflexivity|].
  split; [intros D; unfold resetOnDiscontinuity, bind, get; rewrite D;
          reflexivity|].
  intros D. split.
  - intros g Eg.
    rewrite !trackFeatures_run, !trackExisting_run, !getGrayImage_run.
    cbv zeta. simpl img. simpl grayImg. rewrite Eg.
    destruct (grayImg s); unfold discontinuity in *; simpl;
      rewrite ?D; reflexivity.
  - intros s'. rewrite trackFeatures_run.
    destruct (trackExisting cv2 s) as [[[]|e] s3] eqn:E; [|discriminate].
    destruct (trackExisting_ok E) as (_ & T0 & _). specialize (T0 D).
    destruct (trackExisting_frame E) as (_ & _ & _ & Frng & _).
    destruct (detectionDue s3).
    + rewrite getNewTracks_run.
      destruct (goodFeaturesToTrack _ _ _) as [corners|e]; [|discriminate].
      intros E'. inversion E'; subst s'. simpl. rewrite T0, Frng. simpl.
      eexists. reflexivity.
    + intros E'. inversion E'; subst s'. rewrite T0. exists []. reflexivity.
Qed.

(** C6: when the extension of a track makes its point count exceed
    [maxTrackLength], exactly one point, the oldest, is dropped and the
    others keep their order; otherwise nothing is dropped.  The player is
    created with an unbounded maximum, no frame changes it, and under it
    no point is ever dropped. *)
Theorem trim_drops_exactly_the_oldest :
  (forall maxLen (tr : Track) (xy : R * R),
     exists tr',
       extend maxLen tr xy = Ok tr' /\
       (exceeds (length (points tr) + 1) maxLen = true ->
        exists oldest,
          points tr ++ [mkPoint (fst xy) (snd xy)] = oldest :: points tr') /\
       (exceeds (length (points tr) + 1) maxLen = false ->
        points tr' = points tr ++ [mkPoint (fst xy) (snd xy)])) /\
  (forall interval (i : Image),
     maxTrackLength (Player__init__ (R:=R) interval i) = Inf) /\
  (forall (s : Player) r s',
     drawExtra cv2 s = (r, s') -> maxTrackLength s' = maxTrackLength s) /\
  (forall (tr : Track) (xy : R * R),
     exists tr',
       extend Inf tr xy = Ok tr' /\
       points tr' = points tr ++ [mkPoint (fst xy) (snd xy)]).
Proof.
  split; [|split; [reflexivity|split]].
  - intros maxLen tr xy.
    destruct (extend_total maxLen tr xy) as (tr' & E & _ & Hp).
    exists tr'. split; [exact E|]. split; intros Hx; rewrite Hx in Hp.
    + destruct (points tr ++ _) as [|o rest] eqn:Ea.
      * destruct (points tr); discriminate Ea.
      * exists o. rewrite Hp. reflexivity.
    + exact Hp.
  - intros s r s'. unfold drawExtra, bind.
    destruct (trackFeatures cv2 s) as [[[]|e] s1] eqn:E; intros E';
      inversion E'; subst;
      destruct (trackFeatures_frame E) as (_ & _ & _ & _ & _ & Hm & _);
      exact Hm.
  - intros tr xy.
    destruct (extend_total Inf tr xy) as (tr' & E & _ & Hp).
    exists tr'. split; [exact E | exact Hp].
Qed.

(** C10: a detection cycle that finds nothing (no array, or an empty one)
    spawns no track and still records the current frame in
    [lastDetectionFrame]; with a frame index that is not the sentinel,
    detection is then not due again before a full interval has passed,
    and is due once it has. *)
Theorem empty_detection_records_the_frame (s : Player) :
  goodFeaturesToTrack cv2 (grayImg s) (fgmask s) = Ok None \/
  goodFeaturesToTrack cv2 (grayImg s) (fgmask s) = Ok (Some []) ->
  exists s',
    getNewTracks cv2 s = (Ok tt, s') /\
    tracks s' = tracks s /\
    lastDetectionFrame s' = posFrames s /\
    detectionInterval s' = detectionInterval s /\
    ((0 <= posFrames s)%Z ->
     forall k i m r,
       ((posFrames s <= k < posFrames s + detectionInterval s)%Z ->
        detectionDue (set_frame k i m r s') = false) /\
       ((posFrames s + detectionInterval s <= k)%Z ->
        detectionDue (set_frame k i m r s') = true)).
Proof.
  intros Hc. rewrite getNewTracks_run.
  assert (E : exists corners,
             goodFeaturesToTrack cv2 (grayImg s) (fgmask s) = Ok corners /\
             match corners with Some cs => cs | None => [] end = []).
  { destruct Hc as [Hc|Hc]; rewrite Hc; eauto. }
  destruct E as (corners & -> & ->).
  eexists. split; [reflexivity|]. simpl.
  split; [unfold spawned; simpl; apply app_nil_r|].
  split; [reflexivity|]. split; [reflexivity|].
  intros Hpos k i m r. unfold detectionDue. simpl. split; intros Hk.
  - apply orb_false_iff. split; [apply Z.eqb_neq; lia|].
    rewrite Z.geb_leb. apply Z.leb_gt. lia.
  - apply orb_true_iff. right. apply Z.geb_ge. lia.
Qed.

(** C9: after a successful frame the registry is the survivors of the old
    registry, in the order they had, each extended by one point, followed
    by the tracks spawned from the corners the detector returned in this
    frame (none when detection was not due). *)
Theorem survivors_keep_order_and_spawns_follow (s s' : Player) :
  trackFeatures cv2 s = (Ok tt, s') ->
  exists (survivors : list (Track * (R * R))) (extended : list Track)
         (cs : list (R * R)),
    sublist (map fst survivors) (tracks s) /\
    Forall2 (fun sv tr' =>
               extend (maxTrackLength s) (fst sv) (snd sv) = Ok tr')
            survivors extended /\
    tracks s' = extended ++ spawned (rng s) (length extended) cs /\
    (detectionDue s = false -> cs = []) /\
    (detectionDue s = true ->
     goodFeaturesToTrack cv2 (grayImg s') (fgmask s') = Ok (Some cs) \/
     goodFeaturesToTrack cv2 (grayImg s') (fgmask s') = Ok None /\ cs = []).
Proof.
  rewrite trackFeatures_run.
  destruct (trackExisting cv2 s) as [[[]|e] s3] eqn:E; [|discriminate].
  destruct (trackExisting_ok E) as (Fd & _ & sv & Hsub & Hall).
  destruct (trackExisting_frame E) as (Fp & _ & _ & Frng & _ & _ & Fi).
  rewrite (detectionDue_ext Fp Fd Fi).
  destruct (detectionDue s).
  - rewrite getNewTracks_run.
    destruct (goodFeaturesToTrack cv2 (grayImg s3) (fgmask s3))
      as [corners|e] eqn:Eg; [|discriminate].
    intros E'. inversion E'; subst s'. simpl. rewrite Eg.
    exists sv, (tracks s3), match corners with Some cs => cs | None => [] end.
    split; [exact Hsub|]. split; [exact Hall|].
    split; [rewrite Frng; reflexivity|]. split; [discriminate|].
    intros _. destruct corners; [left | right; split]; reflexivity.
  - intros E'. inversion E'; subst s'.
    exists sv, (tracks s3), []. split; [exact Hsub|]. split; [exact Hall|].
    split; [unfold spawned; simpl; rewrite app_nil_r; reflexivity|].
    split; [reflexivity | discriminate].
Qed.

(** ** The consistency filter *)

Lemma lookup_map {A B} (f : A -> B) (l : list A) i :
  map f l !! i = option_map f (l !! i).
Proof.
  revert i. induction l as [|a l IH]; intros [|i]; simpl; auto.
Qed.

Lemma roundTrip_same_length (p0 p0r : list (R * R)) :
  length p0 = length p0r -> roundTrip p0 p0r = Ok (zip_with absdiff p0 p0r).
Proof.
  intros E. unfold roundTrip. rewrite E, Nat.eqb_refl. reflexivity.
Qed.

(** C1 (as the code has it): when both optical-flow calls return one point
    per track, the track at each position is kept, extended with its
    forward point, exactly when the round trip is off by less than 1 on
    both axes; the status flags of the two calls play no part; a round
    trip off by exactly 1 rejects the track, and a rejected track is not
    in the registry any more. *)
Theorem kept_iff_round_trip_below_one
    (s : Player) lg p0 p1 st err p0r st' err' :
  lastPoints (tracks s) = Ok p0 ->
  lastGrayImage s = Some lg ->
  calcOpticalFlowPyrLK cv2 (Some lg) (grayImg s) p0 = Ok (p1, st, err) ->
  calcOpticalFlowPyrLK cv2 (grayImg s) (Some lg) p1 = Ok (p0r, st', err') ->
  length p1 = length (tracks s) ->
  length p0r = length (tracks s) ->
  exists keptOf : list (option Track),
    length keptOf = length (tracks s) /\
    extendTracks cv2 s = (Ok tt, set_tracks (omap id keptOf) s) /\
    forall i tr,
      tracks s !! i = Some tr ->
      exists a b xy,
        last (points tr) = Some (mkPoint (fst a) (snd a)) /\
        p0 !! i = Some a /\ p0r !! i = Some b /\ p1 !! i = Some xy /\
        (num_ltb (absdiff a b) num_one = true ->
         exists tr', extend (maxTrackLength s) tr xy = Ok tr' /\
                     keptOf !! i = Some (Some tr')) /\
        (num_ltb (absdiff a b) num_one = false -> keptOf !! i = Some None) /\
        (absdiff a b = num_one -> keptOf !! i = Some None).
Proof.
  intros E0 Elg Ef Eb L1 Lr.
  pose proof (lastPoints_length E0) as L0.
  assert (Ed : roundTrip p0 p0r = Ok (zip_with absdiff p0 p0r))
    by (apply roundTrip_same_length; congruence).
  destruct (extendLoop_decisions (maxTrackLength s) (trs:=tracks s) (p1:=p1)
              (good:=goodTracks (zip_with absdiff p0 p0r)))
    as (keptOf & Lk & En & Hk).
  { exact L1. }
  { unfold goodTracks. rewrite length_map, length_zip_with. lia. }
  exists keptOf. split; [exact Lk|]. split.
  - unfold extendTracks, bind, get, lift. rewrite E0, Elg, Ef, Eb, Ed.
    destruct (extendLoop _ _ _ _) as [old r]. simpl in En. subst r.
    reflexivity.
  - intros i tr Hi.
    destruct (lastPoints_lookup E0 Hi) as (a & Ha & Hlast).
    assert (Hlt : i < length (tracks s)) by (eapply lookup_lt_Some; eauto).
    destruct (lookup_lt_is_Some_2 p0r i) as [b Hb]; [lia|].
    destruct (lookup_lt_is_Some_2 p1 i) as [xy Hxy]; [lia|].
    exists a, b, xy. repeat (split; [assumption|]).
    assert (Hg : goodTracks (zip_with absdiff p0 p0r) !! i
                 = Some (num_ltb (absdiff a b) num_one)).
    { unfold goodTracks. rewrite lookup_map, lookup_zip_with, Ha, Hb.
      reflexivity. }
    destruct (Hk i tr xy _ Hi Hxy Hg) as [Ht Hf].
    split; [exact Ht|]. split; [exact Hf|].
    intros E1. apply Hf. rewrite E1. apply num_ltb_irrefl.
Qed.

(** ** Failing capabilities *)

(** C8 (as the code has it): a failure of the motion estimation, forward
    or backward, ends the frame with that exception and with the registry
    and [lastDetectionFrame] of the pre-frame state; a failure of the
    detector ends the frame with that exception too, spawns nothing and
    leaves [lastDetectionFrame] alone, but the player keeps what the reset
    and the extension of this frame have already done. *)
Theorem capability_failure_propagates :
  (forall (s s1 : Player) p0 lg e,
     getGrayImage cv2 s = (Ok tt, s1) ->
     discontinuity s = false -> tracks s <> [] ->
     lastPoints (tracks s) = Ok p0 -> lastGrayImage s1 = Some lg ->
     (calcOpticalFlowPyrLK cv2 (Some lg) (grayImg s1) p0 = Raise e \/
      exists p1 st err,
        calcOpticalFlowPyrLK cv2 (Some lg) (grayImg s1) p0 = Ok (p1, st, err) /\
        calcOpticalFlowPyrLK cv2 (grayImg s1) (Some lg) p1 = Raise e) ->
     exists s',
       trackFeatures cv2 s = (Raise e, s') /\ tracks s' = tracks s /\
       lastDetectionFrame s' = lastDetectionFrame s) /\
  (forall (s s3 : Player) e,
     trackExisting cv2 s = (Ok tt, s3) ->
     detectionDue s3 = true ->
     goodFeaturesToTrack cv2 (grayImg s3) (fgmask s3) = Raise e ->
     trackFeatures cv2 s = (Raise e, s3) /\
     lastDetectionFrame s3 = lastDetectionFrame s).
Proof.
  split.
  - intros s s1 p0 lg e Eg Hd Ht E0 Elg Hf.
    assert (F1 : tracks s1 = tracks s /\ discontinuity s1 = discontinuity s).
    { rewrite getGrayImage_run in Eg. cbv zeta in Eg.
      destruct (cvtColor cv2 (img s)); [|discriminate Eg].
      inversion Eg; subst s1. destruct (grayImg s); split; reflexivity. }
    destruct F1 as [Ft Fj].
    assert (Ex : extendTracks cv2 s1 = (Raise e, s1)).
    { unfold extendTracks, bind, get, lift. rewrite Ft, E0, Elg.
      destruct Hf as [Hf|(p1 & st & err & Hf & Hb)]; rewrite Hf;
        [reflexivity|]. rewrite Hb. reflexivity. }
    assert (Ep : trackExisting cv2 s = (Raise e, s1)).
    { rewrite trackExisting_run, Eg. cbv zeta. rewrite Fj, Hd, Ft.
      destruct (tracks s) as [|t ts]; [congruence|]. simpl. rewrite <- Ex.
      reflexivity. }
    exists s1. rewrite trackFeatures_run, Ep. split; [reflexivity|].
    apply (trackExisting_raise Ep).
  - intros s s3 e Ep Hdue Hg. split.
    + rewrite trackFeatures_run, Ep, Hdue, getNewTracks_run, Hg. reflexivity.
    + apply (trackExisting_ok Ep).
Qed.

(** ** The detection schedule *)

(** A successful frame records a detection exactly when one was due at
    its start. *)
Lemma trackFeatures_schedule (s s' : Player) :
  trackFeatures cv2 s = (Ok tt, s') ->
  lastDetectionFrame s'
  = (if detectionDue s then posFrames s else lastDetectionFrame s).
Proof.
  rewrite trackFeatures_run.
  destruct (trackExisting cv2 s) as [[[]|e] s3] eqn:E; [|discriminate].
  destruct (trackExisting_ok E) as (Fd & _).
  destruct (trackExisting_frame E) as (Fp & _ & _ & _ & _ & _ & Fi).
  rewrite (detectionDue_ext Fp Fd Fi).
  destruct (detectionDue s).
  - rewrite getNewTracks_run.
    destruct (goodFeaturesToTrack _ _ _); [|discriminate].
    intros E'. inversion E'; subst s'. exact Fp.
  - intros E'. inversion E'; subst s'. exact Fd.
Qed.

Lemma tick_schedule (f : Frame Image) (s s' : Player) :
  tick cv2 f s = (Ok tt, s') ->
  detectionInterval s' = detectionInterval s /\
  lastDetectionFrame s'
  = (if detectionDue (set_frame (f_pos f) (f_img f) (f_mask f) (f_rng f) s)
     then f_pos f else lastDetectionFrame s).
Proof.
  unfold tick, drawExtra, bind, modify.
  destruct (trackFeatures cv2 _) as [[[]|e] s1] eqn:E; [|discriminate].
  intros E'. inversion E'; subst s'. simpl.
  destruct (trackFeatures_frame E) as (_ & _ & _ & _ & _ & _ & Fi).
  split; [exact Fi|]. apply (trackFeatures_schedule E).
Qed.

Lemma play_schedule (fs : list (Frame Image)) (k : nat) (s0 s : Player) :
  detectionInterval s0 = 5%Z ->
  lastDetectionFrame s0
  = (if (Z.of_nat k =? 0) then -1 else 5 * ((Z.of_nat k - 1) / 5))%Z ->
  map f_pos fs = map Z.of_nat (seq k (length fs)) ->
  play cv2 fs s0 = (Ok tt, s) ->
  detectionInterval s = 5%Z /\
  lastDetectionFrame s
  = (if (Z.of_nat (k + length fs) =? 0) then -1
     else 5 * ((Z.of_nat (k + length fs) - 1) / 5))%Z.
Proof.
  revert k s0. induction fs as [|f fs IH]; intros k s0 Hi Hl Hpos Hplay.
  - simpl in Hplay. inversion Hplay; subst s. rewrite Nat.add_0_r.
    split; assumption.
  - simpl in Hplay. apply bind_inv_ok in Hplay.
    destruct Hplay as ([] & s1 & Ht & Hplay).
    simpl in Hpos. inversion Hpos as [[Hf Hrest]].
    destruct (tick_schedule Ht) as [Hi1 Hl1].
    replace (k + length (f :: fs)) with (S k + length fs) by (simpl; lia).
    apply (IH (S k) s1); [congruence | | exact Hrest | exact Hplay].
    rewrite Hl1. unfold detectionDue. simpl. rewrite Hi, Hl, Hf.
    destruct (Z.eqb_spec (Z.of_nat k) 0) as [E0|E0].
    + assert (k = 0%nat) by lia. subst k. reflexivity.
    + destruct (Z.eqb_spec (Z.of_nat (S k)) 0) as [E1|E1]; [lia|].
      destruct (Z.eqb_spec (5 * ((Z.of_nat k - 1) / 5)) (-1)) as [E2|E2];
        [lia|]. simpl.
      destruct (Z.geb_spec (Z.of_nat k - 5 * ((Z.of_nat k - 1) / 5)) 5);
        Z.div_mod_to_equations; lia.
Qed.

(** C5: detection is due exactly when [lastDetectionFrame] is the sentinel
    -1 or at least [detectionInterval] frames have passed since; a frame
    that succeeds records a detection exactly when one was due; so, with
    interval 5 and no detection yet, after frames 0, 1, ..., n-1 have been
    played the last detection was at the greatest multiple of 5 below n,
    and detection is due at frame n exactly when 5 divides n. *)
Theorem detection_due_every_fifth_frame :
  (forall s : Player,
     detectionDue s = true <->
     (lastDetectionFrame s = -1
      \/ posFrames s - lastDetectionFrame s >= detectionInterval s)%Z) /\
  (forall s s' : Player,
     trackFeatures cv2 s = (Ok tt, s') ->
     lastDetectionFrame s'
     = (if detectionDue s then posFrames s else lastDetectionFrame s)) /\
  (forall (fs : list (Frame Image)) (s0 s : Player),
     lastDetectionFrame s0 = (-1)%Z ->
     detectionInterval s0 = 5%Z ->
     map f_pos fs = map Z.of_nat (seq 0 (length fs)) ->
     play cv2 fs s0 = (Ok tt, s) ->
     let n := Z.of_nat (length fs) in
     lastDetectionFrame s
     = (if (n =? 0) then -1 else 5 * ((n - 1) / 5))%Z /\
     forall i m r,
       detectionDue (set_frame n i m r s) = true <-> (n mod 5 = 0)%Z).
Proof.
  split; [apply detectionDue_iff|]. split; [apply trackFeatures_schedule|].
  intros fs s0 s Hl Hi Hpos Hplay n.
  destruct (play_schedule (k:=0) Hi Hl Hpos Hplay) as [Hi' Hl'].
  simpl in Hl'. fold n in Hl'. split; [exact Hl'|].
  intros i m r. rewrite detectionDue_iff. simpl. rewrite Hi', Hl'.
  assert (0 <= n)%Z by (unfold n; lia).
  destruct (Z.eqb_spec n 0) as [E0|E0].
  - rewrite E0. simpl. split; [reflexivity | intros _; left; reflexivity].
  - Z.div_mod_to_equations. lia.
Qed.

End Properties.

(** * Properties of the rest of the file *)

Section RunSearch.

Local Open Scope Z_scope.

Lemma np_diff_cons2 a b rest :
  np_diff (a :: b :: rest) = (b - a) :: np_diff (b :: rest).
Proof. reflexivity. Qed.

Lemma np_select_none {A} (a : list A) mask :
  existsb id mask = false -> np_select a mask = [].
Proof.
  revert mask. induction a as [|v a IH]; intros [|b mask]; simpl; auto.
  destruct b; simpl; [discriminate|]. apply IH.
Qed.

Lemma pickRun_cons m s ss e es :
  pickRun m (s :: ss) (e :: es)
  = if m <? Z.of_nat e - Z.of_nat s then Some s else pickRun m ss es.
Proof.
  unfold pickRun. simpl.
  destruct (m <? Z.of_nat e - Z.of_nat s); reflexivity.
Qed.

(** The paired-up search over the differences is one pass over the bits. *)
Lemma pickRun_scan m (l : list bool) :
  forall (cur : option nat) (k : nat),
    let prev := match cur with Some _ => 1 | None => 0 end in
    let difs :=
      np_diff (prev :: map (fun b : bool => if b then 1 else 0) l ++ [0]) in
    pickRun m
      (match cur with Some s => [s] | None => [] end
       ++ np_where_from k (fun d => 0 <? d) difs)
      (np_where_from k (fun d => d <? 0) difs)
    = scanRuns m cur k l.
Proof.
  induction l as [|b l IH]; intros cur k; cbv zeta.
  - destruct cur as [s|]; [|reflexivity].
    unfold pickRun. simpl. destruct (m <? _); reflexivity.
  - cbn [map app]. rewrite np_diff_cons2. cbn [np_where_from].
    destruct b, cur as [s|].
    + change (0 <? 1 - 1) with false. change (1 - 1 <? 0) with false.
      apply (IH (Some s) (S k)).
    + change (0 <? 1 - 0) with true. change (1 - 0 <? 0) with false.
      apply (IH (Some k) (S k)).
    + change (0 <? 0 - 1) with false. change (0 - 1 <? 0) with true.
      cbn [app scanRuns]. rewrite pickRun_cons.
      destruct (m <? _); [reflexivity|]. apply (IH None (S k)).
    + change (0 <? 0 - 0) with false. change (0 - 0 <? 0) with false.
      apply (IH None (S k)).
Qed.

Lemma getFirstRunOfSize_scan bits m :
  getFirstRunOfSize bits m = scanRuns m None 0%nat bits.
Proof.
  unfold getFirstRunOfSize. cbv zeta.
  rewrite <- (pickRun_scan m bits None 0). cbv zeta. unfold pickRun, np_where.
  cbn [app].
  destruct (existsb id _) eqn:E; [reflexivity|].
  rewrite np_select_none by exact E. reflexivity.
Qed.

(** In a logical array every run that starts also ends: the two index
    arrays subtracted in [runEnds - runStarts] have the same length. *)
Lemma run_starts_and_ends_pair_up (l : list bool) :
  forall (inRun : bool) (k : nat),
    let difs :=
      np_diff ((if inRun then 1 else 0)
               :: map (fun b : bool => if b then 1 else 0) l ++ [0]) in
    length (np_where_from k (fun d => d <? 0) difs)
    = Nat.add (if inRun then 1%nat else 0%nat)
              (length (np_where_from k (fun d => 0 <? d) difs)).
Proof.
  induction l as [|b l IH]; intros inRun k; cbv zeta.
  - destruct inRun; reflexivity.
  - cbn [map app]. rewrite np_diff_cons2. cbn [np_where_from].
    specialize (IH b (S k)). cbv zeta in IH.
    destruct b, inRun; simpl in *; rewrite IH; reflexivity.
Qed.

Local Close Scope Z_scope.

Lemma allSet_blocked n c (l : list bool) :
  c < n -> allSet n (replicate c true ++ false :: l) = false.
Proof.
  revert n. induction c as [|c IH]; intros [|n] Hn; try lia; simpl.
  - reflexivity.
  - apply IH. lia.
Qed.

Lemma allSet_short n c : c < n -> allSet n (replicate c true) = false.
Proof.
  revert n. induction c as [|c IH]; intros [|n] Hn; try lia; simpl.
  - reflexivity.
  - apply IH. lia.
Qed.

Lemma allSet_replicate n c (l : list bool) :
  n <= c -> allSet n (replicate c true ++ l) = true.
Proof.
  revert c. induction n as [|n IH]; intros [|c] Hn; try lia; simpl.
  - reflexivity.
  - reflexivity.
  - apply IH. lia.
Qed.

Lemma firstWindow_long m c (l : list bool) :
  m < c -> firstWindow m (replicate c true ++ l) = Some 0.
Proof.
  intros Hc. destruct c as [|c]; [lia|].
  change (replicate (S c) true ++ l) with (true :: (replicate c true ++ l)).
  cbn [firstWindow].
  change (true :: (replicate c true ++ l)) with (replicate (S c) true ++ l).
  rewrite allSet_replicate by lia. reflexivity.
Qed.

Lemma firstWindow_short_end m c :
  c <= m -> firstWindow m (replicate c true) = None.
Proof.
  induction c as [|c IH]; intros Hc; [reflexivity|].
  change (replicate (S c) true) with (true :: replicate c true).
  cbn [firstWindow].
  change (true :: replicate c true) with (replicate (S c) true).
  rewrite allSet_short by lia. rewrite IH by lia. reflexivity.
Qed.

Lemma firstWindow_short m c (l : list bool) :
  c <= m ->
  firstWindow m (replicate c true ++ false :: l)
  = option_map (fun i => S c + i) (firstWindow m l).
Proof.
  induction c as [|c IH]; intros Hc.
  - simpl. destruct (firstWindow m l); reflexivity.
  - change (replicate (S c) true ++ false :: l)
      with (true :: (replicate c true ++ false :: l)).
    cbn [firstWindow].
    change (true :: (replicate c true ++ false :: l))
      with (replicate (S c) true ++ false :: l).
    rewrite allSet_blocked by lia. rewrite IH by lia.
    destruct (firstWindow m l); reflexivity.
Qed.

Lemma replicate_snoc_true c (l : list bool) :
  replicate c true ++ true :: l = replicate (S c) true ++ l.
Proof. induction c as [|c IH]; simpl; [reflexivity|]. rewrite IH. reflexivity. Qed.

(** The pass over the bits finds the least index at which [m + 1] set
    bits begin; [c] is the length of the run the pass is in, [s] the index
    where that run (or, outside a run, the rest of the list) starts. *)
Lemma scanRuns_window m (l : list bool) :
  forall c s,
    scanRuns (Z.of_nat m) (match c with 0 => None | S _ => Some s end)
             (c + s) l
    = option_map (fun i => s + i) (firstWindow m (replicate c true ++ l)).
Proof.
  induction l as [|b l IH]; intros c s.
  - destruct c as [|c]; [reflexivity|]. cbn [scanRuns].
    destruct (Z.ltb_spec (Z.of_nat m) (Z.of_nat (S c + s) - Z.of_nat s)).
    + rewrite firstWindow_long by lia. simpl. f_equal. lia.
    + rewrite app_nil_r. rewrite firstWindow_short_end by lia. reflexivity.
  - destruct b.
    + rewrite replicate_snoc_true. cbn [scanRuns].
      replace (match match c with 0 => None | S _ => Some s end with
               | Some s0 => s0
               | None => c + s
               end) with s by (destruct c; reflexivity).
      apply (IH (S c) s).
    + destruct c as [|c]; cbn [scanRuns].
      * pose proof (IH 0 (S s)) as IH0. cbn [Nat.add replicate app] in *.
        rewrite IH0. cbn [firstWindow allSet].
        destruct (firstWindow m l); simpl; [f_equal; lia | reflexivity].
      * destruct (Z.ltb_spec (Z.of_nat m) (Z.of_nat (S c + s) - Z.of_nat s)).
        -- rewrite firstWindow_long by lia. simpl. f_equal. lia.
        -- pose proof (IH 0 (S (S c + s))) as IH0.
           cbn [Nat.add replicate app] in IH0. cbn [Nat.add]. rewrite IH0.
           rewrite firstWindow_short by lia.
           destruct (firstWindow m l); simpl; [f_equal; lia | reflexivity].
Qed.

Lemma allSet_spec n (l : list bool) :
  allSet n l = true <-> forall j, j < n -> l !! j = Some true.
Proof.
  revert l. induction n as [|n IH]; intros l; simpl.
  - split; [intros _ j Hj; lia | reflexivity].
  - destruct l as [|[|] l].
    + split; [discriminate|]. intros Hl. specialize (Hl 0). simpl in Hl.
      discriminate Hl; lia.
    + rewrite IH. split.
      * intros Hl [|j] Hj; [reflexivity|]. simpl. apply Hl. lia.
      * intros Hl j Hj. apply (Hl (S j)). lia.
    + split; [discriminate|]. intros Hl. specialize (Hl 0). simpl in Hl.
      discriminate Hl; lia.
Qed.

Lemma windowAt_0 m (l : list bool) :
  windowAt l m 0 <-> allSet (S m) l = true.
Proof.
  rewrite allSet_spec. unfold windowAt. split; intros Hw j Hj; apply Hw; lia.
Qed.

Lemma windowAt_S m b (l : list bool) i :
  windowAt (b :: l) m (S i) <-> windowAt l m i.
Proof.
  unfold windowAt. split; intros Hw j Hj.
  - apply (Hw (S j)). lia.
  - destruct j as [|j]; [lia|]. simpl. apply Hw. lia.
Qed.

Lemma windowAt_nil m i : ~ windowAt [] m i.
Proof. intros Hw. specialize (Hw i). simpl in Hw. discriminate Hw; lia. Qed.

Lemma firstWindow_Some m (l : list bool) i :
  firstWindow m l = Some i ->
  windowAt l m i /\ forall i', i' < i -> ~ windowAt l m i'.
Proof.
  revert i. induction l as [|b l IH]; intros i; [discriminate|].
  cbn [firstWindow]. destruct (allSet (S m) (b :: l)) eqn:E.
  - intros Ei. inversion Ei; subst. split; [apply windowAt_0; exact E|].
    intros i' Hi'. lia.
  - destruct (firstWindow m l) as [i0|]; [|discriminate].
    intros Ei. inversion Ei; subst. destruct (IH i0 eq_refl) as [Hw Hl].
    split; [apply windowAt_S; exact Hw|].
    intros [|i'] Hi' Hw'.
    + apply windowAt_0 in Hw'. congruence.
    + apply windowAt_S in Hw'. apply (Hl i'); [lia | exact Hw'].
Qed.

Lemma firstWindow_None m (l : list bool) :
  firstWindow m l = None -> forall i, ~ windowAt l m i.
Proof.
  induction l as [|b l IH]; [intros _ i; apply windowAt_nil|].
  cbn [firstWindow]. destruct (allSet (S m) (b :: l)) eqn:E; [discriminate|].
  destruct (firstWindow m l) as [i0|]; [discriminate|].
  intros _ [|i] Hw.
  - apply windowAt_0 in Hw. congruence.
  - apply windowAt_S in Hw. eapply IH; [reflexivity | exact Hw].
Qed.

Lemma getFirstRunOfSize_window bits m :
  getFirstRunOfSize bits (Z.of_nat m) = firstWindow m bits.
Proof.
  rewrite getFirstRunOfSize_scan.
  pose proof (scanRuns_window m bits 0 0) as E.
  cbn [Nat.add replicate app] in E. rewrite E.
  destruct (firstWindow m bits); reflexivity.
Qed.

(** X1: [getFirstRunOfSize(bits, m)] returns [i] exactly when [i] is the
    least index at which [m + 1] set bits in a row begin: a run of
    exactly [m] bits is not enough, and of two runs that are long enough
    the earlier one wins. *)
Theorem getFirstRunOfSize_least_window bits m i :
  getFirstRunOfSize bits (Z.of_nat m) = Some i <->
  windowAt bits m i /\ forall i', i' < i -> ~ windowAt bits m i'.
Proof.
  rewrite getFirstRunOfSize_window. split; [apply firstWindow_Some|].
  intros [Hw Hl]. destruct (firstWindow m bits) as [i0|] eqn:E.
  - destruct (firstWindow_Some E) as [Hw0 Hl0].
    destruct (Nat.lt_trichotomy i0 i) as [Hlt|[->|Hgt]].
    + exfalso. eapply Hl; eassumption.
    + reflexivity.
    + exfalso. eapply Hl0; eassumption.
  - exfalso. eapply firstWindow_None; eassumption.
Qed.

(** X2: [getFirstRunOfSize(bits, m)] returns [None] exactly when [bits]
    has no [m + 1] set bits in a row anywhere; in particular on an empty
    array and on an array of zeros. *)
Theorem getFirstRunOfSize_None_iff bits m :
  getFirstRunOfSize bits (Z.of_nat m) = None <->
  forall i, ~ windowAt bits m i.
Proof.
  rewrite getFirstRunOfSize_window. split; [apply firstWindow_None|].
  intros Hn. destruct (firstWindow m bits) as [i0|] eqn:E; [|reflexivity].
  exfalso. apply (Hn i0). eapply firstWindow_Some. exact E.
Qed.

End RunSearch.

Section Registry.

Context {R : Type} `{Number R} {Image : Type} (cv2 : CV2 R Image).

Abbreviation Player := (Player R Image).
Abbreviation Track := (Track R).

Lemma Forall_of_sublist {A} (P : A -> Prop) (l1 l2 : list A) :
  sublist l1 l2 -> Forall P l2 -> Forall P l1.
Proof.
  induction 1 as [|a l1 l2 _ IH|a l1 l2 _ IH]; intros HP.
  - constructor.
  - inversion HP; subst. constructor; auto.
  - inversion HP; subst. auto.
Qed.

Lemma Forall_spawned (P : Track -> Prop) rnd n (cs : list (R * R)) :
  (forall tid c xy, P (Track_addPoint (Track__init__ tid c) (fst xy) (snd xy))) ->
  Forall P (spawned rnd n cs).
Proof.
  intros Hs. revert n. induction cs as [|c cs IH]; intros n.
  - constructor.
  - rewrite spawned_cons. constructor; [apply Hs | apply IH].
Qed.

Lemma Forall_survivors (P : Track -> Prop) maxLen
    (sv : list (Track * (R * R))) (old new : list Track) :
  (forall t xy t', P t -> extend maxLen t xy = Ok t' -> P t') ->
  sublist (map fst sv) old ->
  Forall2 (fun sv tr' => extend maxLen (fst sv) (snd sv) = Ok tr') sv new ->
  Forall P old -> Forall P new.
Proof.
  intros He Hsub Hall Hold.
  pose proof (Forall_of_sublist Hsub Hold) as Hsv.
  clear Hsub Hold. induction Hall as [|[t xy] t' sv new Hx _ IH].
  - constructor.
  - simpl in Hsv. inversion Hsv; subst. constructor; [|apply IH; assumption].
    eapply He; eassumption.
Qed.

(** Whatever a frame does, and however it ends, a property of tracks that
    spawning establishes and extending keeps holds of the whole registry
    afterwards. *)
Lemma trackFeatures_Forall (P : Track -> Prop) (s : Player) r s' :
  (forall t xy t', P t -> extend (maxTrackLength s) t xy = Ok t' -> P t') ->
  (forall tid c xy, P (Track_addPoint (Track__init__ tid c) (fst xy) (snd xy))) ->
  Forall P (tracks s) ->
  trackFeatures cv2 s = (r, s') ->
  Forall P (tracks s').
Proof.
  intros He Hs Hold. rewrite trackFeatures_run.
  destruct (trackExisting cv2 s) as [[[]|e] s3] eqn:Ep.
  - destruct (trackExisting_ok Ep) as (_ & _ & sv & Hsub & Hall).
    assert (H3 : Forall P (tracks s3))
      by (eapply Forall_survivors; eassumption).
    destruct (detectionDue s3).
    + rewrite getNewTracks_run.
      destruct (goodFeaturesToTrack _ _ _) as [corners|e];
        intros E; inversion E; subst; [|exact H3].
      simpl. apply Forall_app. split; [exact H3|].
      apply Forall_spawned. exact Hs.
    + intros E. inversion E; subst. exact H3.
  - intros E. inversion E; subst.
    destruct (trackExisting_raise Ep) as [-> _]. exact Hold.
Qed.

Lemma drawExtra_Forall (P : Track -> Prop) (s : Player) r s' :
  (forall t xy t', P t -> extend (maxTrackLength s) t xy = Ok t' -> P t') ->
  (forall tid c xy, P (Track_addPoint (Track__init__ tid c) (fst xy) (snd xy))) ->
  Forall P (tracks s) ->
  drawExtra cv2 s = (r, s') ->
  Forall P (tracks s') /\ maxTrackLength s' = maxTrackLength s.
Proof.
  intros He Hs Hold. unfold drawExtra, bind, modify.
  destruct (trackFeatures cv2 s) as [[[]|e] s1] eqn:E; intros E';
    inversion E'; subst; simpl;
    (split; [eapply trackFeatures_Forall; eassumption|]);
    apply (trackFeatures_frame E).
Qed.

Lemma play_Forall (P : Track -> Prop) (fs : list (Frame Image)) :
  forall (s : Player) r s',
    (forall t xy t', P t -> extend (maxTrackLength s) t xy = Ok t' -> P t') ->
    (forall tid c xy,
        P (Track_addPoint (Track__init__ tid c) (fst xy) (snd xy))) ->
    Forall P (tracks s) ->
    play cv2 fs s = (r, s') ->
    Forall P (tracks s').
Proof.
  induction fs as [|f fs IH]; intros s r s' He Hs Hold.
  - simpl. intros E. inversion E; subst. exact Hold.
  - simpl. unfold bind at 1.
    destruct (tick cv2 f s) as [[[]|e] s1] eqn:Et.
    + unfold tick, bind, modify in Et.
      destruct (drawExtra_Forall (P:=P)
                  (s:=set_frame (f_pos f) (f_img f) (f_mask f) (f_rng f) s)
                  He Hs Hold Et) as [H1 Hm].
      apply IH; [|exact Hs|exact H1].
      rewrite Hm. exact He.
    + intros E. inversion E; subst.
      unfold tick, bind, modify in Et.
      apply (drawExtra_Forall (P:=P)
               (s:=set_frame (f_pos f) (f_img f) (f_mask f) (f_rng f) s)
               He Hs Hold Et).
Qed.

Lemma tail_snoc {A} (l : list A) (a : A) :
  l <> [] -> tail (l ++ [a]) = tail l ++ [a].
Proof. destruct l; [congruence | reflexivity]. Qed.

(** X3: after any playback from a fresh player, whatever the maximum
    track length and whatever fails on the way, every track of the
    registry has at least one point and its [lastPos] is its last point. *)
Theorem registry_tracks_have_points
    (m : MaxLen) (interval : Z) (i : Image) (fs : list (Frame Image)) :
  Forall (fun t : Track => points t <> [] /\ lastPos t = last (points t))
         (tracks (snd (play cv2 fs
                         (set_maxTrackLength m (Player__init__ interval i))))).
Proof.
  destruct (play cv2 fs _) as [r s'] eqn:E. simpl.
  eapply play_Forall
    with (s := set_maxTrackLength m (Player__init__ interval i));
    [| |apply Forall_nil_2|exact E].
  - intros t xy t' [Hp Hl] Hx. unfold extend, Track_numPoints in Hx.
    assert (Ha : points (Track_addPoint t (fst xy) (snd xy))
                 = points t ++ [mkPoint (fst xy) (snd xy)]
                 /\ lastPos (Track_addPoint t (fst xy) (snd xy))
                    = Some (mkPoint (fst xy) (snd xy))).
    { unfold Track_addPoint. destruct (last (points t)); split; reflexivity. }
    destruct Ha as [Ha1 Ha2].
    destruct (exceeds _ _).
    + unfold Track_removeOldest in Hx. rewrite Ha1 in Hx.
      destruct (points t ++ _) as [|p0 rest] eqn:Eq; [discriminate Hx|].
      inversion Hx; subst t'. simpl. rewrite Ha2.
      destruct (points t) as [|q qs]; [congruence|].
      simpl in Eq. inversion Eq; subst. split.
      * destruct qs; discriminate.
      * rewrite last_snoc. reflexivity.
    + inversion Hx; subst t'. rewrite Ha1, Ha2, last_snoc. split; [|reflexivity].
      destruct (points t); discriminate.
  - intros tid c xy. split; [discriminate | reflexivity].
Qed.

(** X4: with [maxTrackLength = n], no track of the registry ever has more
    than [max(1, n)] points, after any playback from a fresh player. *)
Theorem registry_tracks_are_bounded
    (n : Z) (interval : Z) (i : Image) (fs : list (Frame Image)) :
  Forall (fun t : Track => (Z.of_nat (length (points t)) <= Z.max 1 n)%Z)
         (tracks (snd (play cv2 fs
                         (set_maxTrackLength (Fin n)
                            (Player__init__ interval i))))).
Proof.
  destruct (play cv2 fs _) as [r s'] eqn:E. simpl.
  eapply play_Forall
    with (s := set_maxTrackLength (Fin n) (Player__init__ interval i));
    [| |apply Forall_nil_2|exact E].
  - intros t xy t' Hb Hx. simpl in Hx.
    destruct (extend_total (Fin n) t xy) as (t0 & Hx0 & _ & Hp).
    rewrite Hx in Hx0. inversion Hx0; subst t0. rewrite Hp. simpl.
    destruct (Z.ltb_spec n (Z.of_nat (length (points t) + 1))).
    + assert (Hlen : length (tail (points t ++ [mkPoint (fst xy) (snd xy)]))
                     = length (points t)).
      { destruct (points t); simpl; [reflexivity|].
        rewrite length_app. simpl. lia. }
      rewrite Hlen. exact Hb.
    + rewrite length_app. simpl. lia.
  - intros tid c xy. simpl. lia.
Qed.

(** X5: with the default unbounded length, after any playback from a
    fresh player every track of the registry is as [addPoint] builds it:
    it has a point, its velocities are the differences of consecutive
    points (so there is one fewer of them), and [lastPos] and [lastVel]
    are the last point and the last velocity. *)
Theorem registry_tracks_are_derived
    (interval : Z) (i : Image) (fs : list (Frame Image)) :
  Forall derived
         (tracks (snd (play cv2 fs (Player__init__ interval i)))).
Proof.
  destruct (play cv2 fs _) as [r s'] eqn:E. simpl.
  eapply play_Forall with (s := Player__init__ interval i);
    [| |apply Forall_nil_2|exact E].
  - intros t xy t' (Hp & Hv & Hl & Hlv) Hx. simpl in Hx.
    unfold extend in Hx. simpl in Hx. inversion Hx; subst t'.
    unfold derived, Track_addPoint.
    destruct (last (points t)) as [q|] eqn:Lq.
    + simpl. split; [destruct (points t); discriminate|].
      split; [|split; [rewrite last_snoc; reflexivity
                      |rewrite last_snoc; reflexivity]].
      rewrite tail_snoc by exact Hp. rewrite Hv.
      destruct (points t) as [|p0 ps] eqn:Ep; [congruence|].
      simpl tail.
      assert (Hz : forall (a : list (Point R)) b x z,
                 last (b :: a) = Some z ->
                 zip_with Point__sub__ (a ++ [x]) ((b :: a) ++ [x])
                 = zip_with Point__sub__ a (b :: a) ++ [Point__sub__ x z]).
      { induction a as [|a0 a IH]; intros b x z Hz0.
        - simpl in *. inversion Hz0; subst. reflexivity.
        - simpl. f_equal. apply (IH a0 x z). exact Hz0. }
      symmetry. apply Hz. exact Lq.
    + apply last_None in Lq. congruence.
  - intros tid c xy. repeat split. discriminate.
Qed.

(** ** What a playback can raise *)






(** ** Track ids *)

Lemma sublist_map {A B} (f : A -> B) (l1 l2 : list A) :
  sublist l1 l2 -> sublist (map f l1) (map f l2).
Proof.
  induction 1; simpl; [constructor | apply sublist_skip | apply sublist_cons];
    assumption.
Qed.

Lemma sublist_same_length {A} (l1 l2 : list A) :
  sublist l1 l2 -> length l1 = length l2 -> l1 = l2.
Proof.
  induction 1 as [|a l1 l2 Hs IH|a l1 l2 Hs IH]; simpl; intros E.
  - reflexivity.
  - f_equal. apply IH. lia.
  - apply sublist_length in Hs. lia.
Qed.

Lemma survivors_ids maxLen (sv : list (Track * (R * R))) (new : list Track) :
  Forall2 (fun sv tr' => extend maxLen (fst sv) (snd sv) = Ok tr') sv new ->
  map trackId new = map trackId (map fst sv).
Proof.
  induction 1 as [|[t xy] t' sv new Hx _ IH]; [reflexivity|].
  simpl. rewrite IH. f_equal.
  destruct (extend_total maxLen t xy) as (t0 & Hx0 & Hid & _).
  simpl in Hx. rewrite Hx in Hx0. inversion Hx0; subst t0. exact Hid.
Qed.

(** X7: the ids after a successful frame are some of the old ids, in
    their order, followed by the consecutive numbers that start at the
    count of survivors (not at the largest id in use); when every track
    survives, the old ids are all there. *)
Theorem ids_after_a_frame (s s' : Player) :
  trackFeatures cv2 s = (Ok tt, s') ->
  exists (kept : list nat) (k : nat),
    sublist kept (map trackId (tracks s)) /\
    map trackId (tracks s') = kept ++ seq (length kept) k /\
    (length kept = length (tracks s) -> kept = map trackId (tracks s)).
Proof.
  rewrite trackFeatures_run.
  destruct (trackExisting cv2 s) as [[[]|e] s3] eqn:Ep; [|discriminate].
  destruct (trackExisting_ok Ep) as (_ & _ & sv & Hsub & Hall).
  pose proof (survivors_ids Hall) as Hids.
  pose proof (sublist_map trackId Hsub) as Hsub'.
  assert (Hlen : length (map trackId (tracks s3)) = length (tracks s3))
    by apply length_map.
  assert (Hsame : length (map trackId (tracks s3)) = length (tracks s) ->
                  map trackId (tracks s3) = map trackId (tracks s)).
  { intros E. rewrite Hids in *. apply sublist_same_length; [exact Hsub'|].
    rewrite E. symmetry. apply length_map. }
  destruct (detectionDue s3).
  - rewrite getNewTracks_run.
    destruct (goodFeaturesToTrack _ _ _) as [corners|e]; [|discriminate].
    intros E. inversion E; subst s'. simpl.
    exists (map trackId (tracks s3)), (length match corners with
                                               | Some cs => cs
                                               | None => []
                                               end).
    split; [rewrite Hids; exact Hsub'|]. split; [|exact Hsame].
    rewrite map_app, spawned_ids, Hlen. reflexivity.
  - intros E. inversion E; subst s'.
    exists (map trackId (tracks s3)), 0.
    split; [rewrite Hids; exact Hsub'|]. split; [|exact Hsame].
    simpl. rewrite app_nil_r. reflexivity.
Qed.

(** X8: in a frame that resets the registry (first frame, backward jump,
    forward skip) the ids of the tracks left are 0, 1, ..., n-1: pairwise
    distinct. *)
Theorem ids_are_fresh_after_a_reset (s s' : Player) :
  discontinuity s = true ->
  trackFeatures cv2 s = (Ok tt, s') ->
  map trackId (tracks s') = seq 0 (length (tracks s')) /\
  NoDup (map trackId (tracks s')).
Proof.
  intros Hd. rewrite trackFeatures_run.
  destruct (trackExisting cv2 s) as [[[]|e] s3] eqn:Ep; [|discriminate].
  destruct (trackExisting_ok Ep) as (_ & T0 & _). specialize (T0 Hd).
  assert (Hgoal : forall s1 : Player,
             map trackId (tracks s1) = seq 0 (length (tracks s1)) ->
             map trackId (tracks s1) = seq 0 (length (tracks s1)) /\
             NoDup (map trackId (tracks s1))).
  { intros s1 E1. split; [exact E1|]. rewrite E1. apply NoDup_seq. }
  destruct (detectionDue s3).
  - rewrite getNewTracks_run.
    destruct (goodFeaturesToTrack _ _ _) as [corners|e]; [|discriminate].
    intros E. inversion E; subst s'. apply Hgoal. simpl. rewrite T0. simpl.
    rewrite spawned_ids. unfold spawned. rewrite length_imap. reflexivity.
  - intros E. inversion E; subst s'. apply Hgoal. rewrite T0. reflexivity.
Qed.

(** ** Frames that fail, jumps that do not detect *)


(** X10: a reset does not touch [lastDetectionFrame]: when the frame
    jumped to is not yet [detectionInterval] frames past the last
    detection (a short skip, or any backward jump that lands before it),
    the frame ends with an empty registry, and the registry stays empty
    for as long as detection is not due. *)
Theorem no_tracks_until_detection_is_due (s s' : Player) :
  detectionDue s = false ->
  discontinuity s = true \/ tracks s = [] ->
  trackFeatures cv2 s = (Ok tt, s') ->
  tracks s' = [] /\ lastDetectionFrame s' = lastDetectionFrame s.
Proof.
  intros Hdue Hempty. rewrite trackFeatures_run.
  destruct (trackExisting cv2 s) as [[[]|e] s3] eqn:Ep; [|discriminate].
  destruct (trackExisting_ok Ep) as (Fd & T0 & sv & Hsub & Hall).
  destruct (trackExisting_frame Ep) as (Fp & _ & _ & _ & _ & _ & Fi).
  rewrite (detectionDue_ext Fp Fd Fi), Hdue.
  intros E. inversion E; subst s'. split; [|exact Fd].
  destruct Hempty as [Hd|Hnil]; [apply T0; exact Hd|].
  rewrite Hnil in Hsub. apply sublist_nil_r in Hsub.
  destruct sv; [|discriminate Hsub]. inversion Hall. reflexivity.
Qed.

(** ** The detection schedule for any interval *)

Lemma play_schedule_any (d : Z) (fs : list (Frame Image)) :
  (1 <= d)%Z ->
  forall (k : nat) (s0 s : Player),
    detectionInterval s0 = d ->
    lastDetectionFrame s0
    = (if (Z.of_nat k =? 0) then -1 else d * ((Z.of_nat k - 1) / d))%Z ->
    map f_pos fs = map Z.of_nat (seq k (length fs)) ->
    play cv2 fs s0 = (Ok tt, s) ->
    detectionInterval s = d /\
    lastDetectionFrame s
    = (if (Z.of_nat (k + length fs) =? 0) then -1
       else d * ((Z.of_nat (k + length fs) - 1) / d))%Z.
Proof.
  intros Hd. induction fs as [|f fs IH]; intros k s0 s Hi Hl Hpos Hplay.
  - simpl in Hplay. inversion Hplay; subst s. rewrite Nat.add_0_r.
    split; assumption.
  - simpl in Hplay. apply bind_inv_ok in Hplay.
    destruct Hplay as ([] & s1 & Ht & Hplay).
    simpl in Hpos. inversion Hpos as [[Hf Hrest]].
    destruct (tick_schedule Ht) as [Hi1 Hl1].
    replace (k + length (f :: fs)) with (S k + length fs) by (simpl; lia).
    apply (IH (S k) s1); [congruence | | exact Hrest | exact Hplay].
    rewrite Hl1. unfold detectionDue. simpl. rewrite Hi, Hl, Hf.
    destruct (Z.eqb_spec (Z.of_nat (S k)) 0) as [E1|E1]; [lia|].
    destruct (Z.eqb_spec (Z.of_nat k) 0) as [E0|E0].
    + rewrite E0. simpl. replace (Z.of_nat (S k) - 1)%Z with 0%Z by lia.
      rewrite Z.div_0_l by lia. lia.
    + set (q := ((Z.of_nat k - 1) / d)%Z).
      set (q' := ((Z.of_nat (S k) - 1) / d)%Z).
      assert (Hq : (d * q <= Z.of_nat k - 1 < d * q + d)%Z).
      { pose proof (Z.div_mod (Z.of_nat k - 1) d ltac:(lia)) as Hdm.
        pose proof (Z.mod_pos_bound (Z.of_nat k - 1) d ltac:(lia)) as Hb.
        fold q in Hdm. lia. }
      assert (Hq' : (d * q' <= Z.of_nat k < d * q' + d)%Z).
      { pose proof (Z.div_mod (Z.of_nat (S k) - 1) d ltac:(lia)) as Hdm.
        pose proof (Z.mod_pos_bound (Z.of_nat (S k) - 1) d ltac:(lia)) as Hb.
        fold q' in Hdm. lia. }
      assert (Hq0 : (0 <= q)%Z) by (apply Z.div_pos; lia).
      destruct (Z.eqb_spec (d * q) (-1)) as [E2|E2]; [nia|]. simpl.
      destruct (Z.geb_spec (Z.of_nat k - d * q) d) as [Hge|Hlt].
      * assert (q' = q + 1)%Z by nia. nia.
      * assert (q' = q)%Z by nia. nia.
Qed.

(** X11: for any detection interval [d >= 1], starting with no detection
    yet and playing frames 0, 1, ..., n-1, the last detection is at the
    greatest multiple of [d] below [n] and detection is due at frame [n]
    exactly when [d] divides [n]. *)
Theorem detection_due_every_dth_frame
    (d : Z) (fs : list (Frame Image)) (s0 s : Player) :
  (1 <= d)%Z ->
  lastDetectionFrame s0 = (-1)%Z ->
  detectionInterval s0 = d ->
  map f_pos fs = map Z.of_nat (seq 0 (length fs)) ->
  play cv2 fs s0 = (Ok tt, s) ->
  lastDetectionFrame s
  = (if (Z.of_nat (length fs) =? 0) then -1
     else d * ((Z.of_nat (length fs) - 1) / d))%Z /\
  forall i mask r,
    detectionDue (set_frame (Z.of_nat (length fs)) i mask r s) = true <->
    (Z.of_nat (length fs) mod d = 0)%Z.
Proof.
  intros Hd Hl Hi Hpos Hplay.
  destruct (play_schedule_any Hd (k:=0) Hi Hl Hpos Hplay) as [Hi' Hl'].
  simpl in Hl'. split; [exact Hl'|].
  intros i mask r. rewrite detectionDue_iff. simpl. rewrite Hi', Hl'.
  set (n := Z.of_nat (length fs)). assert (0 <= n)%Z by (unfold n; lia).
  destruct (Z.eqb_spec n 0) as [E0|E0].
  - rewrite E0. rewrite Z.mod_0_l by lia.
    split; [reflexivity | intros _; left; reflexivity].
  - set (q := ((n - 1) / d)%Z).
    pose proof (Z.div_mod (n - 1) d ltac:(lia)) as Hdm.
    pose proof (Z.mod_pos_bound (n - 1) d ltac:(lia)) as Hb.
    fold q in Hdm.
    assert (Hq0 : (0 <= q)%Z) by (apply Z.div_pos; lia).
    split.
    + intros [Hs|Hge]; [nia|].
      assert (E : n = (d * (q + 1))%Z) by nia.
      rewrite E, Z.mul_comm. apply Z.mod_mul. lia.
    + intros Hm. right.
      pose proof (Z.div_mod n d ltac:(lia)) as Hn. rewrite Hm in Hn.
      assert (Hq1 : (n / d = q + 1)%Z) by nia.
      nia.
Qed.

(** ** The first frame *)

Lemma spawned_points rnd n (cs : list (R * R)) :
  map (fun t : Track => (points t, velocity t)) (spawned rnd n cs)
  = map (fun c => ([mkPoint (fst c) (snd c)], [])) cs.
Proof.
  revert n. induction cs as [|c cs IH]; intros n; [reflexivity|].
  rewrite spawned_cons. simpl. f_equal. apply IH.
Qed.

(** X16: on the first frame of a player (nothing drawn, nothing detected
    yet), whatever the registry held, a frame whose detector returns N
    corners ends with exactly N tracks: the i-th has id i, the i-th
    corner as its only point and no velocity; and the frame is recorded
    as the last detection. *)
Theorem first_frame_spawns_the_corners
    (s : Player) (g : Image) (cs : list (R * R)) :
  lastFrameDrawn s = (-1)%Z ->
  lastDetectionFrame s = (-1)%Z ->
  cvtColor cv2 (img s) = Ok g ->
  goodFeaturesToTrack cv2 (Some g) (fgmask s) = Ok (Some cs) ->
  exists s',
    trackFeatures cv2 s = (Ok tt, s') /\
    length (tracks s') = length cs /\
    map trackId (tracks s') = seq 0 (length cs) /\
    map (fun t : Track => (points t, velocity t)) (tracks s')
    = map (fun c => ([mkPoint (fst c) (snd c)], [])) cs /\
    lastDetectionFrame s' = posFrames s.
Proof.
  intros Hl Hd Eg Ec.
  rewrite trackFeatures_run, trackExisting_run, getGrayImage_run. cbv zeta.
  rewrite Eg.
  assert (Hdisc : forall s1 : Player,
             lastFrameDrawn s1 = (-1)%Z -> discontinuity s1 = true).
  { intros s1 E1. unfold discontinuity. rewrite E1. reflexivity. }
  assert (Hdue : forall s1 : Player,
             lastDetectionFrame s1 = (-1)%Z -> detectionDue s1 = true).
  { intros s1 E1. unfold detectionDue. rewrite E1. reflexivity. }
  destruct (grayImg s) as [g0|];
    (rewrite Hdisc by exact Hl; cbn [tracks set_tracks length Nat.ltb Nat.leb];
     rewrite Hdue by exact Hd; rewrite getNewTracks_run;
     cbn [grayImg fgmask set_tracks set_grayImg set_lastGrayImage];
     rewrite Ec; eexists; (split; [reflexivity|]); simpl;
     split; [unfold spawned; apply length_imap|];
     split; [apply spawned_ids|];
     split; [apply spawned_points | reflexivity]).
Qed.

End Registry.

Section Drawing.

Context {R : Type} `{Number R} `{Conversions R}.

(** ** makeAvgTime *)

Lemma makeAvgTime_step (w : list R) (t : R) :
  length w <= 21 ->
  fst (makeAvgTime w t) = drop (length w + 1 - 21) (w ++ [t]).
Proof.
  intros Hw. unfold makeAvgTime. simpl.
  destruct (Nat.ltb_spec 20 (length w)).
  - replace (length w + 1 - 21) with 1 by lia.
    destruct w; [simpl in *; lia | reflexivity].
  - replace (length w + 1 - 21) with 0 by lia. reflexivity.
Qed.

(** X12: [makeAvgTime] keeps a sliding window of the last 21 samples (the
    test is [len > 20], made before the append): called on samples one
    after the other from an empty [self.times], it leaves the last 21 of
    them, in order, and returns the mean of exactly those. *)
Theorem makeAvgTime_keeps_the_last_21 (samples : list R) (t : R) :
  let times := fold_left (fun ts x => fst (makeAvgTime ts x)) samples [] in
  times = drop (length samples - 21) samples /\
  makeAvgTime times t
  = (drop (length samples + 1 - 21) (samples ++ [t]),
     num_mean (drop (length samples + 1 - 21) (samples ++ [t]))).
Proof.
  cbv zeta.
  assert (Hfold : fold_left (fun ts x => fst (makeAvgTime ts x)) samples []
                  = drop (length samples - 21) samples).
  { induction samples as [|x l IH] using rev_ind; [reflexivity|].
    rewrite fold_left_app. cbn [fold_left]. rewrite IH.
    rewrite makeAvgTime_step by (rewrite length_drop; lia).
    rewrite length_drop, length_app. simpl.
    destruct (Nat.le_gt_cases (length l) 20).
    - replace (length l - 21) with 0 by lia.
      replace (length l - 0 + 1 - 21) with 0 by lia.
      replace (length l + 1 - 21) with 0 by lia. reflexivity.
    - replace (length l - (length l - 21) + 1 - 21) with 1 by lia.
      rewrite !drop_app_le by (rewrite ?length_drop; lia).
      rewrite drop_drop. f_equal. f_equal. lia. }
  split; [exact Hfold|]. rewrite Hfold.
  assert (Hstep : fst (makeAvgTime (drop (length samples - 21) samples) t)
                  = drop (length samples + 1 - 21) (samples ++ [t])).
  { rewrite makeAvgTime_step by (rewrite length_drop; lia).
    rewrite length_drop.
    destruct (Nat.le_gt_cases (length samples) 20).
    - replace (length samples - 21) with 0 by lia.
      replace (length samples - 0 + 1 - 21) with 0 by lia.
      replace (length samples + 1 - 21) with 0 by lia. reflexivity.
    - replace (length samples - (length samples - 21) + 1 - 21) with 1 by lia.
      rewrite !drop_app_le by (rewrite ?length_drop; lia).
      rewrite drop_drop. f_equal. f_equal. lia. }
  unfold makeAvgTime in *. simpl in *. rewrite Hstep. reflexivity.
Qed.

(** ** drawTrack *)

Lemma firstWindow_iff m (l : list bool) i :
  firstWindow m l = Some i <->
  windowAt l m i /\ forall i', i' < i -> ~ windowAt l m i'.
Proof.
  split; [apply firstWindow_Some|].
  intros [Hw Hl]. destruct (firstWindow m l) as [i0|] eqn:E.
  - destruct (firstWindow_Some E) as [Hw0 Hl0].
    destruct (Nat.lt_trichotomy i0 i) as [Hlt|[->|Hgt]].
    + exfalso. eapply Hl; eassumption.
    + reflexivity.
    + exfalso. eapply Hl0; eassumption.
  - exfalso. eapply firstWindow_None; eassumption.
Qed.

Lemma window_has_255 (d : list Z) m i :
  windowAt (map (fun v => v =? 255)%Z d) m i ->
  existsb (Z.eqb 255) d = true.
Proof.
  intros Hw. specialize (Hw i ltac:(lia)).
  rewrite lookup_map in Hw. destruct (d !! i) as [v|] eqn:Ev; [|discriminate].
  simpl in Hw. injection Hw as Hv. apply existsb_exists. exists v. split.
  - apply list_elem_of_In. eapply list_elem_of_lookup_2. exact Ev.
  - rewrite Z.eqb_sym. exact Hv.
Qed.

(** X13: once a track has [minFeatureTime] points and its two columns
    can be read, [drawTrack] raises [NameError] (from the undefined [i]
    of its [print]) exactly when, in both columns, the first three
    foreground pixels (255) in a row from the point's row down begin
    strictly below that row.  Nothing is ever printed; a run that begins
    at the point's own row (index 0, which is false) is treated like no
    run and the track is drawn or skipped as usual. *)
Theorem drawTrack_NameError_iff
    (fgnoshad : Array2) (mft : Z) (t : Track R) (perturb : Z)
    (lp : Point R) (r c : Z) (dl dr : list Z) :
  (mft <= Z.of_nat (length (points t)))%Z ->
  lastPos t = Some lp ->
  num_int_round (y lp) = Done r ->
  num_int_round (x lp) = Done c ->
  column_from fgnoshad r (Z.max 0 (c - perturb)) = Done dl ->
  column_from fgnoshad r
    (Z.min (Z.of_nat (width fgnoshad) - 1) (c + perturb)) = Done dr ->
  let bl := map (fun v => v =? 255)%Z dl in
  let br := map (fun v => v =? 255)%Z dr in
  drawTrack fgnoshad mft t perturb = Failed NameError <->
  exists il ir,
    (windowAt bl 2 (S il) /\ forall i', i' < S il -> ~ windowAt bl 2 i') /\
    (windowAt br 2 (S ir) /\ forall i', i' < S ir -> ~ windowAt br 2 i').
Proof.
  intros Hlen Hlp Hr Hc Hdl Hdr bl br.
  unfold drawTrack. apply Z.leb_le in Hlen. rewrite Hlen, Hlp, Hr, Hc.
  cbv zeta. rewrite Hdl, Hdr.
  change 2%Z with (Z.of_nat 2). rewrite !getFirstRunOfSize_window.
  fold bl br. split.
  - destruct (existsb (Z.eqb 255) dl && existsb (Z.eqb 255) dr).
    + destruct (firstWindow 2 bl) as [[|il]|] eqn:El;
        destruct (firstWindow 2 br) as [[|ir]|] eqn:Er; simpl;
        try (destruct (lastVel t) as [v|];
             [destruct (num_ltb num_one (Point_norm2 v))|]; discriminate).
      intros _. exists il, ir. split; apply firstWindow_iff; assumption.
    + destruct (lastVel t) as [v|];
        [destruct (num_ltb num_one (Point_norm2 v))|]; discriminate.
  - intros (il & ir & Hl & Hr').
    rewrite (window_has_255 (proj1 Hl)), (window_has_255 (proj1 Hr')).
    apply firstWindow_iff in Hl, Hr'. rewrite Hl, Hr'. reflexivity.
Qed.

(** X14: a track with fewer than [minFeatureTime] points is left alone by
    [drawTrack]: nothing is read, nothing is drawn and nothing can fail;
    so a frame whose tracks are all that short (the two frames after a
    reset, for one) is drawn without any effect and is recorded. *)
Theorem short_tracks_are_not_drawn
    {Image : Type} (cv2 : CV2 R Image) (fgnoshad : Array2)
    (s s1 : Player R Image) :
  trackFeatures cv2 s = (Ok tt, s1) ->
  Forall (fun t : Track R => length (points t) < 3) (tracks s1) ->
  drawExtraTracks cv2 fgnoshad s
  = (Done (map (fun _ => None) (tracks s1)),
     set_lastFrameDrawn (posFrames s1) s1).
Proof.
  intros E Hshort. unfold drawExtraTracks. rewrite E.
  assert (Hd : drawTracks fgnoshad (tracks s1)
               = Done (map (fun _ => None) (tracks s1))).
  { induction Hshort as [|t ts Ht _ IH]; [reflexivity|].
    simpl. unfold drawTrack, minFeatureTime.
    destruct (Z.leb_spec 3 (Z.of_nat (length (points t)))); [lia|].
    rewrite IH. reflexivity. }
  rewrite Hd. reflexivity.
Qed.


End Drawing.

(** * Concrete runs *)

Section Runs.

Import Scene.

Local Open Scope Q_scope.

(** ** Where the code and the claims part *)

(** C1, counterexample: in frame 1 of a scene whose optical flow reports
    failure ([status = 0]) for every point and whose round trip comes back
    exactly, the rule of the claim rejects both tracks, and the code keeps
    and extends both. *)
Lemma unsuccessful_flow_is_kept :
  let cv := cv2 false (-7) corners_0_5 in
  let s := in_frame cv 1 (snd (play cv (frames 1) init)) in
  let p0 := [(10, 10); (20, 20)] in
  shape s = [(0, 1, 0); (1, 1, 0)]%nat /\
  lastPoints (tracks s) = Ok p0 /\
  calcOpticalFlowPyrLK cv (Some 0%Z) (Some 1%Z) p0
  = Ok (p0, [false; false], [0; 0]) /\
  calcOpticalFlowPyrLK cv (Some 1%Z) (Some 0%Z) p0
  = Ok (p0, [false; false], [0; 0]) /\
  roundTrip p0 p0 = Ok [0; 0] /\
  map (fun d => specKept false d 1) [0; 0] = [false; false] /\
  fst (extendTracks cv s) = Ok tt /\
  shape (snd (extendTracks cv s)) = [(0, 2, 1); (1, 2, 1)]%nat.
Proof. vm_compute. repeat split; reflexivity. Qed.

(** C8, counterexample: the detector fails in frame 5 after the extension
    step has run; the exception reaches the caller and the registry holds
    the extended tracks, not the pre-frame ones. *)
Lemma detector_failure_keeps_the_extension :
  let cv := cv2 true (-7) corners_fail_5 in
  let s := at_frame 5 (snd (play cv (frames 5) init)) in
  let s' := snd (trackFeatures cv s) in
  goodFeaturesToTrack cv (Some 5%Z) (Some 5%Z) = Raise CvError /\
  fst (trackFeatures cv s) = Raise CvError /\
  shape s = [(0, 5, 4); (1, 5, 4)]%nat /\
  shape s' = [(0, 6, 5); (1, 6, 5)]%nat /\
  tracks s' <> tracks s.
Proof.
  cbv zeta. repeat split; try (vm_compute; reflexivity).
  intros E. apply (f_equal (map (fun t => length (points t)))) in E.
  vm_compute in E. discriminate E.
Qed.

(** C2 (the code differs): with [maxTrackLength = 1], the first extension
    of the two tracks spawned in frame 0 trims their points and not their
    velocities: each track ends with one point and one velocity. *)
Theorem trim_leaves_the_velocity :
  let cv := cv2 true (-7) corners_0_5 in
  let s0 := set_maxTrackLength (Fin 1) init in
  fst (play cv (frames 2) s0) = Ok tt /\
  shape (snd (play cv (frames 2) s0)) = [(0, 1, 1); (1, 1, 1)]%nat.
Proof. vm_compute. split; reflexivity. Qed.

(** C3 (the code differs): two tracks are spawned in frame 0 with ids 0 and
    1; in frame 5 the filter rejects track 0 and the detector returns one
    corner, whose track gets the id [len(self.tracks) = 1] of the track
    that is still live. *)
Theorem spawned_id_repeats_a_live_one :
  let cv := cv2 true 5 corners_0_5 in
  let s := snd (play cv (frames 6) init) in
  fst (play cv (frames 6) init) = Ok tt /\
  shape s = [(1, 6, 5); (1, 1, 0)]%nat /\
  ~ NoDup (map trackId (tracks s)).
Proof.
  cbv zeta. repeat split; try (vm_compute; reflexivity).
  replace (map trackId _) with [1; 1]%nat by (vm_compute; reflexivity).
  intros N. inversion N as [|? ? Hn _]. apply Hn. left.
Qed.

(** ** The theorems at work *)

(** Frame 5 of the scene whose backward pass drifts there: both flow calls
    return one point per track, so the filter theorem applies. *)
Lemma filter_witness :
  let cv := cv2 true 5 corners_0_5 in
  let s := in_frame cv 5 (snd (play cv (frames 5) init)) in
  lastPoints (tracks s) = Ok [(10, 10); (20, 20)] /\
  calcOpticalFlowPyrLK cv (Some 5%Z) (Some 4%Z) [(10, 10); (20, 20)]
  = Ok ([(13, 10); (20, 20)], [true; true], [0; 0]) /\
  exists keptOf : list (option (Track Q)),
    length keptOf = length (tracks s) /\
    extendTracks cv s = (Ok tt, set_tracks (omap id keptOf) s).
Proof.
  cbv zeta. split; [vm_compute; reflexivity|].
  split; [vm_compute; reflexivity|].
  destruct (kept_iff_round_trip_below_one
              (cv2:=cv2 true 5 corners_0_5)
              (s:=in_frame (cv2 true 5 corners_0_5) 5
                    (snd (play (cv2 true 5 corners_0_5) (frames 5) init)))
              (lg:=4%Z) (p0:=[(10, 10); (20, 20)])
              (p1:=[(10, 10); (20, 20)]) (st:=[true; true]) (err:=[0; 0])
              (p0r:=[(13, 10); (20, 20)]) (st':=[true; true])
              (err':=[0; 0]))
    as (keptOf & L & E & _); try (vm_compute; reflexivity).
  exists keptOf. split; [exact L | exact E].
Defined.

(** Scenario D: frames 0 to 10 have been played and the next frame is
    frame 20. *)
Lemma reset_witness :
  let cv := cv2 true (-7) corners_0_5 in
  let s := at_frame 20 (snd (play cv (frames 11) init)) in
  shape s = [(0, 11, 10); (1, 11, 10); (2, 6, 5)]%nat /\
  discontinuity s = true /\
  resetOnDiscontinuity s = (Ok tt, set_tracks [] s) /\
  exists cs, tracks (snd (trackFeatures cv s)) = spawned (rng s) 0 cs.
Proof.
  cbv zeta. split; [vm_compute; reflexivity|].
  split; [vm_compute; reflexivity|].
  destruct (reset_exactly_on_discontinuity (cv2 true (-7) corners_0_5)
              (at_frame 20
                 (snd (play (cv2 true (-7) corners_0_5) (frames 11) init))))
    as (_ & Hr & _ & Hf).
  split; [apply Hr; vm_compute; reflexivity|].
  apply Hf; [vm_compute; reflexivity|].
  vm_compute. reflexivity.
Defined.

(** Ten frames played: the last detection was at frame 5 and the next one
    is due at frame 10. *)
Lemma cadence_witness :
  let cv := cv2 true (-7) corners_0_5 in
  let s := snd (play cv (frames 10) init) in
  play cv (frames 10) init = (Ok tt, s) /\
  lastDetectionFrame s = 5%Z /\
  detectionDue (at_frame 10 s) = true.
Proof.
  cbv zeta. split; [vm_compute; reflexivity|].
  pose proof (proj2 (proj2 (detection_due_every_fifth_frame
                              (cv2 true (-7) corners_0_5)))
                (frames 10) init
                (snd (play (cv2 true (-7) corners_0_5) (frames 10) init))
                eq_refl eq_refl eq_refl) as P.
  cbv zeta in P. destruct P as [A B]; [vm_compute; reflexivity|].
  split; [exact A|].
  apply (proj2 (B 10%Z (Some 10%Z) (fun _ => black))). reflexivity.
Defined.

(** A track of two points extended under [maxTrackLength = 2]. *)
Lemma trim_witness :
  let tr := Track_addPoint (Track_addPoint (Track__init__ 0 black) 1 1) 2 2 in
  exists tr' oldest,
    extend (Fin 2) tr (3, 3) = Ok tr' /\
    points tr ++ [mkPoint 3 3] = oldest :: points tr'.
Proof.
  cbv zeta.
  destruct (proj1 (trim_drops_exactly_the_oldest (cv2 true 5 corners_0_5))
              (Fin 2)
              (Track_addPoint (Track_addPoint (Track__init__ 0 black) 1 1) 2 2)
              (3, 3))
    as (tr' & E & Ht & _).
  destruct (Ht eq_refl) as [oldest Ho].
  exists tr', oldest. split; [exact E | exact Ho].
Defined.

(** The forward flow fails in frame 1; the detector fails in frame 5. *)
Lemma failure_witness :
  (let cv := cv2_no_flow corners_0_5 in
   let s := at_frame 1 (snd (play cv (frames 1) init)) in
   exists s',
     trackFeatures cv s = (Raise CvError, s') /\ tracks s' = tracks s /\
     lastDetectionFrame s' = lastDetectionFrame s) /\
  (let cv := cv2 true (-7) corners_fail_5 in
   let s := at_frame 5 (snd (play cv (frames 5) init)) in
   let s3 := snd (trackExisting cv s) in
   trackFeatures cv s = (Raise CvError, s3) /\
   lastDetectionFrame s3 = lastDetectionFrame s).
Proof.
  cbv zeta. split.
  - apply (proj1 (capability_failure_propagates (cv2_no_flow corners_0_5))
             (at_frame 1 (snd (play (cv2_no_flow corners_0_5) (frames 1) init)))
             (in_frame (cv2_no_flow corners_0_5) 1
                (snd (play (cv2_no_flow corners_0_5) (frames 1) init)))
             [(10, 10); (20, 20)] 0%Z CvError);
      try (vm_compute; reflexivity).
    + vm_compute. discriminate.
    + left. vm_compute. reflexivity.
  - apply (proj2 (capability_failure_propagates
                    (cv2 true (-7) corners_fail_5)));
      vm_compute; reflexivity.
Defined.

(** Frame 5 of the scene whose backward pass drifts there: track 0 goes,
    track 1 stays and the track of the new corner comes after it. *)
Lemma order_witness :
  let cv := cv2 true 5 corners_0_5 in
  let s := at_frame 5 (snd (play cv (frames 5) init)) in
  let s' := snd (trackFeatures cv s) in
  trackFeatures cv s = (Ok tt, s') /\
  shape s = [(0, 5, 4); (1, 5, 4)]%nat /\
  shape s' = [(1, 6, 5); (1, 1, 0)]%nat /\
  exists (survivors : list (Track Q * (Q * Q))) (extended : list (Track Q))
         (cs : list (Q * Q)),
    sublist (map fst survivors) (tracks s) /\
    Forall2 (fun sv tr' =>
               extend (maxTrackLength s) (fst sv) (snd sv) = Ok tr')
            survivors extended /\
    tracks s' = extended ++ spawned (rng s) (length extended) cs.
Proof.
  cbv zeta. split; [vm_compute; reflexivity|].
  split; [vm_compute; reflexivity|]. split; [vm_compute; reflexivity|].
  destruct (survivors_keep_order_and_spawns_follow
              (cv2:=cv2 true 5 corners_0_5)
              (s:=at_frame 5
                    (snd (play (cv2 true 5 corners_0_5) (frames 5) init)))
              (s':=snd (trackFeatures (cv2 true 5 corners_0_5)
                          (at_frame 5
                             (snd (play (cv2 true 5 corners_0_5)
                                     (frames 5) init))))))
    as (sv & ex & cs & Hs & Ha & Ht & _); [vm_compute; reflexivity|].
  exists sv, ex, cs. repeat split; assumption.
Defined.

(** Frame 1: detection finds nothing. *)
Lemma empty_detection_witness :
  let cv := cv2 true (-7) corners_0_5 in
  let s := in_frame cv 1 (snd (play cv (frames 1) init)) in
  goodFeaturesToTrack cv (grayImg s) (fgmask s) = Ok None /\
  exists s',
    getNewTracks cv s = (Ok tt, s') /\ tracks s' = tracks s /\
    lastDetectionFrame s' = 1%Z /\
    detectionDue (at_frame 5 s') = false /\
    detectionDue (at_frame 6 s') = true.
Proof.
  cbv zeta. split; [vm_compute; reflexivity|].
  destruct (empty_detection_records_the_frame
              (cv2:=cv2 true (-7) corners_0_5)
              (s:=in_frame (cv2 true (-7) corners_0_5) 1
                    (snd (play (cv2 true (-7) corners_0_5) (frames 1) init))))
    as (s' & E & Ht & Hl & Hi & Hd); [left; vm_compute; reflexivity|].
  exists s'. split; [exact E|]. split; [exact Ht|]. split; [exact Hl|].
  assert (Hp : (0 <= 1)%Z) by lia.
  split.
  - apply (proj1 (Hd Hp 5%Z 5%Z (Some 5%Z) (fun _ => black))).
    vm_compute. split; [intros C; discriminate C | reflexivity].
  - apply (proj2 (Hd Hp 6%Z 6%Z (Some 6%Z) (fun _ => black))).
    vm_compute. intros C; discriminate C.
Defined.

End Runs.

(** * Concrete runs of the further properties *)

Section MoreRuns.

Import Scene Canvas.

Local Open Scope Q_scope.


(** Frame 5 of the scene whose backward pass drifts there: id 0 goes, id 1
    stays, and the spawned track is numbered from the one survivor. *)
Lemma ids_witness :
  let cv := cv2 true 5 corners_0_5 in
  let s := at_frame 5 (snd (play cv (frames 5) init)) in
  let s' := snd (trackFeatures cv s) in
  map trackId (tracks s) = [0; 1]%nat /\
  map trackId (tracks s') = [1; 1]%nat /\
  exists (kept : list nat) (k : nat),
    sublist kept (map trackId (tracks s)) /\
    map trackId (tracks s') = kept ++ seq (length kept) k.
Proof.
  cbv zeta. split; [vm_compute; reflexivity|].
  split; [vm_compute; reflexivity|].
  destruct (ids_after_a_frame
              (cv2:=cv2 true 5 corners_0_5)
              (s:=at_frame 5
                    (snd (play (cv2 true 5 corners_0_5) (frames 5) init)))
              (s':=snd (trackFeatures (cv2 true 5 corners_0_5)
                          (at_frame 5
                             (snd (play (cv2 true 5 corners_0_5)
                                     (frames 5) init))))))
    as (kept & k & Hs & Hi & _); [vm_compute; reflexivity|].
  exists kept, k. split; assumption.
Defined.

(** The first frame: a reset, then two corners. *)
Lemma fresh_ids_witness :
  let cv := cv2 true 5 corners_0_5 in
  let s' := snd (trackFeatures cv (at_frame 0 init)) in
  discontinuity (at_frame 0 init) = true /\
  map trackId (tracks s') = seq 0 2 /\
  NoDup (map trackId (tracks s')).
Proof.
  cbv zeta. split; [reflexivity|].
  destruct (ids_are_fresh_after_a_reset
              (cv2:=cv2 true 5 corners_0_5) (s:=at_frame 0 init)
              (s':=snd (trackFeatures (cv2 true 5 corners_0_5)
                          (at_frame 0 init))))
    as [Hi Hn]; [reflexivity | vm_compute; reflexivity |].
  split; [exact Hi | exact Hn].
Defined.


(** Frames 0 to 10 played, then a skip to frame 12: the three tracks go
    and, the last detection being two frames old, none comes. *)
Lemma short_skip_witness :
  let cv := cv2 true (-7) corners_0_5 in
  let s := at_frame 12 (snd (play cv (frames 11) init)) in
  let s' := snd (trackFeatures cv s) in
  length (tracks s) = 3%nat /\
  discontinuity s = true /\ detectionDue s = false /\
  tracks s' = [] /\ lastDetectionFrame s' = 10%Z.
Proof.
  cbv zeta. split; [vm_compute; reflexivity|].
  split; [vm_compute; reflexivity|]. split; [vm_compute; reflexivity|].
  destruct (no_tracks_until_detection_is_due
              (cv2:=cv2 true (-7) corners_0_5)
              (s:=at_frame 12
                    (snd (play (cv2 true (-7) corners_0_5) (frames 11) init)))
              (s':=snd (trackFeatures (cv2 true (-7) corners_0_5)
                          (at_frame 12
                             (snd (play (cv2 true (-7) corners_0_5)
                                     (frames 11) init))))))
    as [Ht Hl]; [vm_compute; reflexivity | left; vm_compute; reflexivity
                | vm_compute; reflexivity |].
  split; [exact Ht|]. rewrite Hl. vm_compute. reflexivity.
Defined.

(** Interval 3, seven frames played: the last detection was at frame 6
    and frame 7 is not due. *)
Lemma any_interval_witness :
  let cv := cv2 true (-7) corners_0_5 in
  let s := snd (play cv (frames 7) (Player__init__ 3 0%Z)) in
  lastDetectionFrame s = 6%Z /\
  detectionDue (at_frame 7 s) = false.
Proof.
  cbv zeta.
  destruct (detection_due_every_dth_frame
              (cv2:=cv2 true (-7) corners_0_5) (d:=3%Z) (fs:=frames 7)
              (s0:=Player__init__ 3 0%Z)
              (s:=snd (play (cv2 true (-7) corners_0_5) (frames 7)
                         (Player__init__ 3 0%Z))))
    as [Hl Hd]; [lia | reflexivity | reflexivity | reflexivity
                | vm_compute; reflexivity |].
  split; [exact Hl|].
  destruct (detectionDue _) eqn:E; [|reflexivity].
  apply (Hd 7%Z (Some 7%Z) (fun _ => black)) in E. discriminate E.
Defined.

(** A track that ends three rows above the foreground: the search finds a
    run at offset 3 in both columns, and [drawTrack] raises. *)
Lemma NameError_witness :
  column_from blob 2 5 = Done [0; 0; 0; 255; 255; 255; 255; 0]%Z /\
  (drawTrack blob 3 above 5 = Failed NameError <->
   exists il ir,
     (windowAt (map (fun v => v =? 255)%Z
                    [0; 0; 0; 255; 255; 255; 255; 0]%Z) 2 (S il) /\
      forall i', (i' < S il)%nat ->
                 ~ windowAt (map (fun v => v =? 255)%Z
                                 [0; 0; 0; 255; 255; 255; 255; 0]%Z) 2 i') /\
     (windowAt (map (fun v => v =? 255)%Z
                    [0; 0; 0; 255; 255; 255; 255; 0]%Z) 2 (S ir) /\
      forall i', (i' < S ir)%nat ->
                 ~ windowAt (map (fun v => v =? 255)%Z
                                 [0; 0; 0; 255; 255; 255; 255; 0]%Z) 2 i')) /\
  drawTrack blob 3 above 5 = Failed NameError /\
  drawTrack blob 3 on_edge 5
  = Done (Some ([(10, 1); (10, 3); (10, 5)]%Z, black)).
Proof.
  split; [vm_compute; reflexivity|].
  split; [|split; vm_compute; reflexivity].
  apply (drawTrack_NameError_iff
           (fgnoshad:=blob) (mft:=3%Z) (t:=above) (perturb:=5%Z)
           (lp:=mkPoint 10 2) (r:=2%Z) (c:=10%Z));
    vm_compute; try reflexivity.
  intros C. discriminate C.
Defined.

(** The first frame: its two tracks have one point each. *)
Lemma short_tracks_witness :
  let cv := cv2 true 5 corners_0_5 in
  let s1 := snd (trackFeatures cv (at_frame 0 init)) in
  drawExtraTracks cv blob (at_frame 0 init)
  = (Done [None; None], set_lastFrameDrawn 0%Z s1).
Proof.
  cbv zeta.
  rewrite (short_tracks_are_not_drawn
             (cv2:=cv2 true 5 corners_0_5) blob (s:=at_frame 0 init)
             (s1:=snd (trackFeatures (cv2 true 5 corners_0_5)
                         (at_frame 0 init)))).
  - vm_compute. reflexivity.
  - vm_compute. reflexivity.
  - vm_compute. repeat constructor.
Defined.

(** The first frame of the scene: two corners, two tracks. *)
Lemma first_frame_witness :
  let cv := cv2 true 5 corners_0_5 in
  exists s',
    trackFeatures cv (at_frame 0 init) = (Ok tt, s') /\
    length (tracks s') = 2%nat /\
    map trackId (tracks s') = [0; 1]%nat /\
    map (fun t : Track Q => (points t, velocity t)) (tracks s')
    = [([mkPoint 10 10], []); ([mkPoint 20 20], [])] /\
    lastDetectionFrame s' = 0%Z.
Proof.
  cbv zeta.
  apply (first_frame_spawns_the_corners
           (cv2:=cv2 true 5 corners_0_5) (s:=at_frame 0 init) (g:=0%Z)
           (cs:=[(10, 10); (20, 20)])); reflexivity.
Defined.


End MoreRuns.
